(** * report-conversion: page numbering and two-pass PDF assembly

    A shallow embedding of the conversion script (the title locator
    [find_page_number], the table-of-content injector, [mergePDFs],
    [generatePDF]) and of the two HTTP handlers of [app.js], with the
    properties of the specification stated and settled against them.
    Further properties of the code follow them: the shape of the page
    map, the outcomes of the merge, the style scripts, what [generatePDF]
    returns, throws and leaves behind, the answers of the handlers, and
    the command line ([createHTMLFile], [createPDFFile], [main]). *)

From Stdlib Require Import ZArith Ascii.
From stdpp Require Import base option list gmap strings pretty sorting.

#[local] Set Warnings "-register-all".

(** ** JavaScript strings *)

Module JsString.

(** The character U+000A, the pattern given to [str.replace]. *)
Definition newline : string := String (Ascii.ascii_of_nat 10) EmptyString.

(** [s.slice(n)]: [s] without its first [n] characters. *)
Fixpoint slice (n : nat) (s : string) : string :=
  match n, s with
  | S n', String _ s' => slice n' s'
  | _, _ => s
  end.

(** [startsWith s t]: [t] is a prefix of [s]. *)
Fixpoint startsWith (s t : string) {struct t} : bool :=
  match t, s with
  | EmptyString, _ => true
  | String b t', String a s' => if Ascii.eqb a b then startsWith s' t' else false
  | String _ _, EmptyString => false
  end.

(** [String.prototype.includes]: [t] occurs in [s] as a contiguous
    substring; the empty string occurs in every string. *)
Fixpoint includes (s t : string) : bool :=
  startsWith s t ||
  match s with
  | EmptyString => false
  | String _ s' => includes s' t
  end.

(** [String.prototype.replace] with a string pattern: only the first
    occurrence of [pat] is replaced.  (The replacement is always the
    empty string in this program, so the dollar patterns of the
    replacement text play no role.) *)
Fixpoint replace (pat rep s : string) : string :=
  if startsWith s pat then rep +:+ slice (String.length pat) s
  else match s with
       | EmptyString => EmptyString
       | String a s' => String a (replace pat rep s')
       end.

(** Number of newline characters of a string. *)
Fixpoint count_newlines (s : string) : nat :=
  match s with
  | EmptyString => 0
  | String a s' => (if Ascii.eqb a (Ascii.ascii_of_nat 10) then 1 else 0) + count_newlines s'
  end.

(** Every newline removed: what a global replacement would produce. *)
Fixpoint remove_newlines (s : string) : string :=
  match s with
  | EmptyString => EmptyString
  | String a s' =>
      if Ascii.eqb a (Ascii.ascii_of_nat 10) then remove_newlines s'
      else String a (remove_newlines s')
  end.

End JsString.

(** ** The title locator *)

Module TitleLocator.
Import JsString.

(** A text run of pdfjs ([TextItem]); only [str] is read by the scan. *)
Record TextItem := { str : string; hasEOL : bool }.

(** [getTextContent().items] of one page. *)
Abbreviation PageContent := (list TextItem).

(** The parsed document: [numPages] is the length of the list and
    [getPage(n)] is its element [n - 1]. *)
Abbreviation PDFDocumentProxy := (list PageContent).

Definition numPages (pdf : PDFDocumentProxy) : nat := length pdf.

(** The three variables the scan mutates. *)
Record ScanState := {
  titlesPages : gmap nat (list nat);
  foundTitles : list string;
  scrapText : string
}.

(** [if (!titlesPages[pageNb]) titlesPages[pageNb] = [];
     titlesPages[pageNb].push(index)] *)
Definition push (pageNb index : nat) (m : gmap nat (list nat)) : gmap nat (list nat) :=
  match m !! pageNb with
  | None => <[pageNb := [index]]> m
  | Some l => <[pageNb := l ++ [index]]> m
  end.

(** The body of the [forEach] callback, lines 202-220. *)
Definition check_title (extrapages : Z) (pageNb : nat) (st : ScanState)
    (index : nat) (title : string) : ScanState :=
  if includes (scrapText st) title then
    if negb (bool_decide (title ∈ foundTitles st)) && (0 <? extrapages)%Z then
      {| titlesPages := titlesPages st;
         foundTitles := foundTitles st ++ [title];
         scrapText := EmptyString |}
    else
      {| titlesPages := push pageNb index (titlesPages st);
         foundTitles := foundTitles st;
         scrapText := EmptyString |}
  else st.

(** [table_of_content.forEach((title, index) => ...)], from [index] on. *)
Fixpoint forEach_title (extrapages : Z) (pageNb : nat) (index : nat)
    (table_of_content : list string) (st : ScanState) : ScanState :=
  match table_of_content with
  | [] => st
  | title :: rest =>
      forEach_title extrapages pageNb (S index) rest
        (check_title extrapages pageNb st index title)
  end.

(** [scrapText += items[j].str.replace(newline, empty)] *)
Definition append_item (it : TextItem) (st : ScanState) : ScanState :=
  {| titlesPages := titlesPages st;
     foundTitles := foundTitles st;
     scrapText := scrapText st +:+ replace newline EmptyString (str it) |}.

(** The inner [for] loop over the items of one page. *)
Fixpoint scan_items (extrapages : Z) (table_of_content : list string)
    (pageNb : nat) (items : list TextItem) (st : ScanState) : ScanState :=
  match items with
  | [] => st
  | it :: rest =>
      scan_items extrapages table_of_content pageNb rest
        (forEach_title extrapages pageNb 0 table_of_content (append_item it st))
  end.

(** [let scrapText] is emptied at the top of each page. *)
Definition reset_text (st : ScanState) : ScanState :=
  {| titlesPages := titlesPages st;
     foundTitles := foundTitles st;
     scrapText := EmptyString |}.

(** The outer loop, over the pages from number [pageNb] on. *)
Fixpoint scan_pages (extrapages : Z) (table_of_content : list string)
    (pageNb : nat) (pages : list PageContent) (st : ScanState) : ScanState :=
  match pages with
  | [] => st
  | pageContent :: rest =>
      scan_pages extrapages table_of_content (S pageNb) rest
        (scan_items extrapages table_of_content pageNb pageContent (reset_text st))
  end.

Definition initial : ScanState :=
  {| titlesPages := ∅; foundTitles := []; scrapText := EmptyString |}.

(** The state in which the loop [for (pageNb = 3; pageNb <= numPages; ...)]
    ends: pages 1 and 2 are never read. *)
Definition scan (pdf : PDFDocumentProxy) (table_of_content : list string)
    (extrapages : Z) : ScanState :=
  scan_pages extrapages table_of_content 3 (drop 2 pdf) initial.

Definition find_page_number (pdf : PDFDocumentProxy) (table_of_content : list string)
    (extrapages : Z) : gmap nat (list nat) :=
  titlesPages (scan pdf table_of_content extrapages).

(** A text run holding [s]. *)
Definition run (s : string) : TextItem := {| str := s; hasEOL := false |}.

(** The text of a page as the scan accumulates it when nothing resets
    the buffer: the runs, each cleaned by [replace], put end to end. *)
Fixpoint page_text (items : list TextItem) : string :=
  match items with
  | [] => EmptyString
  | it :: rest => replace newline EmptyString (str it) +:+ page_text rest
  end.

(** *** The sequence of textual matches

    The rolling buffer is emptied at every match whatever the branch
    taken, so which title matches where does not depend on [extrapages]
    nor on [foundTitles].  [match_events] is the scan with the
    bookkeeping erased: it lists the matches in the order they happen. *)

Record Match := { page : nat; index : nat; title : string }.

Record MatchState := { events : list Match; buffer : string }.

Definition note_match (pageNb : nat) (ms : MatchState) (i : nat) (t : string) : MatchState :=
  if includes (buffer ms) t then
    {| events := events ms ++ [{| page := pageNb; index := i; title := t |}];
       buffer := EmptyString |}
  else ms.

Fixpoint forEach_match (pageNb : nat) (i : nat) (table_of_content : list string)
    (ms : MatchState) : MatchState :=
  match table_of_content with
  | [] => ms
  | t :: rest => forEach_match pageNb (S i) rest (note_match pageNb ms i t)
  end.

Fixpoint match_items (table_of_content : list string) (pageNb : nat)
    (items : list TextItem) (ms : MatchState) : MatchState :=
  match items with
  | [] => ms
  | it :: rest =>
      match_items table_of_content pageNb rest
        (forEach_match pageNb 0 table_of_content
           {| events := events ms;
              buffer := buffer ms +:+ replace newline EmptyString (str it) |})
  end.

Fixpoint match_pages (table_of_content : list string) (pageNb : nat)
    (pages : list PageContent) (ms : MatchState) : MatchState :=
  match pages with
  | [] => ms
  | pageContent :: rest =>
      match_pages table_of_content (S pageNb) rest
        (match_items table_of_content pageNb pageContent
           {| events := events ms; buffer := EmptyString |})
  end.

Definition match_events (pdf : PDFDocumentProxy) (table_of_content : list string)
    : list Match :=
  events (match_pages table_of_content 3 (drop 2 pdf)
            {| events := []; buffer := EmptyString |}).

(** The map built by assigning every listed match to its page. *)
Definition assign_pages (E : list Match) : gmap nat (list nat) :=
  fold_left (fun m e => push (page e) (index e) m) E ∅.

(** The matches left once the first match of each title is set aside:
    a match is kept when its title has matched before ([before] lists
    the matches that precede [E]). *)
Fixpoint later_matches (before E : list Match) : list Match :=
  match E with
  | [] => []
  | e :: E' =>
      (if bool_decide (title e ∈ map title before) then [e] else [])
        ++ later_matches (before ++ [e]) E'
  end.

(** The matches that lead to a page assignment. *)
Definition assigned (extrapages : Z) (E : list Match) : list Match :=
  if (0 <? extrapages)%Z then later_matches [] E else E.

(** The value list of a page, empty when the page is no key. *)
Definition indices_on (m : gmap nat (list nat)) (pageNb : nat) : list nat :=
  default [] (m !! pageNb).

(** The text of a page with every newline of every run removed. *)
Definition clean_text (items : list TextItem) : string :=
  foldr (fun it acc => remove_newlines (str it) +:+ acc) EmptyString items.

(** No run of the document holds more than one newline: the runs on
    which the single [replace] of the scan removes every newline. *)
Definition at_most_one_newline (pdf : PDFDocumentProxy) : Prop :=
  Forall (Forall (fun it => count_newlines (str it) ≤ 1)) pdf.

(** A match is sound for a document and a title list when it names a
    scanned page, a title of the list, and the title occurs in the text
    of that page. *)
Definition sound (pdf : PDFDocumentProxy) (T : list string) (e : Match) : Prop :=
  3 ≤ page e ∧ T !! index e = Some (title e) ∧
  ∃ pc, pdf !! (page e - 1) = Some pc ∧ includes (page_text pc) (title e) = true.

(** The scan and its erasure go in step: same buffer, the map is the one
    the assigned matches build, and the titles recorded as seen are the
    titles that matched (none is recorded without extra pages). *)
Definition Sim (ex : Z) (st : ScanState) (ms : MatchState) : Prop :=
  scrapText st = buffer ms ∧
  titlesPages st = assign_pages (assigned ex (events ms)) ∧
  (if (0 <? ex)%Z then ∀ t, t ∈ foundTitles st ↔ t ∈ map title (events ms)
   else foundTitles st = []).

(** *** The scenarios of the specification *)

Definition toc : list string := ["Introduction"; "1. Scope"; "2. Method"].



(** Scenario B when the page pushed to number 3 is the contents page,
    which lists every title. *)
Definition scenarioB_contents (first second : PageContent) : PDFDocumentProxy :=
  [ first; second;
    [run "Contents"; run "Introduction"; run "1. Scope"; run "2. Method"];
    [run "Introduction"; run "This report presents the survey."] ].

(** A title whose text comes back on a later page. *)
Definition repeated : PDFDocumentProxy :=
  [ [run "Cover"]; [run "Contents"];
    [run "Introduction"]; [run "As said in the Introduction, ..."] ].

(** The same text, every run flagged as ending a line. *)
Definition repeated_eol : PDFDocumentProxy :=
  map (map (fun it => {| str := str it; hasEOL := true |})) repeated.

End TitleLocator.

(** ** The document of a browser page *)

Module Dom.
Import JsString.

(** What the selectors and scripts of the program read or write on an
    element: its tag name, its [id] (empty when it has none), its class
    list and the inline [style.display] (absent until a script sets it). *)
Record Attrs := {
  tag : string;
  id : string;
  classes : list string;
  display : option string
}.

Inductive Node :=
| Text (data : string)
| Element (attrs : Attrs) (childNodes : list Node).

Definition set_display (d : string) (a : Attrs) : Attrs :=
  {| tag := tag a; id := id a; classes := classes a; display := Some d |}.

(** Selectors: [#id], [.class] and a tag name. *)
Definition has_id (i : string) (a : Attrs) : bool := bool_decide (id a = i).
Definition has_class (c : string) (a : Attrs) : bool := bool_decide (c ∈ classes a).
Definition has_tag (t : string) (a : Attrs) : bool := bool_decide (tag a = t).

(** [element.children]: the child nodes that are elements. *)
Definition is_element (n : Node) : bool :=
  match n with Element _ _ => true | Text _ => false end.

Definition children (n : Node) : list Node :=
  match n with
  | Text _ => []
  | Element _ cs => filter (fun c => is_element c = true) cs
  end.

(** [node.textContent]: the text of the descendants, in document order. *)
Fixpoint textContent (n : Node) : string :=
  match n with
  | Text s => s
  | Element _ cs =>
      (fix all (l : list Node) : string :=
         match l with
         | [] => EmptyString
         | c :: l' => textContent c +:+ all l'
         end) cs
  end.

(** [querySelector]: the first element, in document order, that the
    selector matches, the node itself included. *)
Fixpoint find_first (sel : Attrs → bool) (n : Node) : option Node :=
  match n with
  | Text _ => None
  | Element a cs =>
      if sel a then Some n
      else (fix among (l : list Node) : option Node :=
              match l with
              | [] => None
              | c :: l' =>
                  match find_first sel c with
                  | Some r => Some r
                  | None => among l'
                  end
              end) cs
  end.

(** The same search through a list of siblings. *)
Fixpoint find_among (sel : Attrs → bool) (l : list Node) : option Node :=
  match l with
  | [] => None
  | c :: l' =>
      match find_first sel c with
      | Some r => Some r
      | None => find_among sel l'
      end
  end.

(** [element.querySelector]: the search starts below the element. *)
Definition querySelector (sel : Attrs → bool) (n : Node) : option Node :=
  match n with
  | Text _ => None
  | Element _ cs => find_among sel cs
  end.

(** A script run on the element that [find_first] returns: the document
    in which that element is replaced by [f] of it, nothing when no
    element matches. *)
Fixpoint modify_first (sel : Attrs → bool) (f : Node → Node) (n : Node) : option Node :=
  match n with
  | Text _ => None
  | Element a cs =>
      if sel a then Some (f n)
      else
        Element a <$>
          (fix among (l : list Node) : option (list Node) :=
             match l with
             | [] => None
             | c :: l' =>
                 match modify_first sel f c with
                 | Some c' => Some (c' :: l')
                 | None => cons c <$> among l'
                 end
             end) cs
  end.

(** The same script on the first match among a list of siblings. *)
Fixpoint modify_among (sel : Attrs → bool) (f : Node → Node) (l : list Node)
    : option (list Node) :=
  match l with
  | [] => None
  | c :: l' =>
      match modify_first sel f c with
      | Some c' => Some (c' :: l')
      | None => cons c <$> modify_among sel f l'
      end
  end.

(** A script run on every element ([querySelectorAll(...).forEach]). *)
Fixpoint map_elements (f : Attrs → Attrs) (n : Node) : Node :=
  match n with
  | Text s => Text s
  | Element a cs => Element (f a) (map (map_elements f) cs)
  end.

(** [element.textContent = s]: the children give way to one text node. *)
Definition set_textContent (s : string) (n : Node) : Node :=
  match n with
  | Text _ => Text s
  | Element a _ => Element a [Text s]
  end.

(** [element.appendChild(c)] *)
Definition appendChild (c : Node) (n : Node) : Node :=
  match n with
  | Text s => Text s
  | Element a cs => Element a (cs ++ [c])
  end.

(** [sections.forEach((section, i) => if (i !== 0) display = flex)]:
    [seen] tells whether a section came earlier in document order. *)
Fixpoint flex_later_sections (seen : bool) (n : Node) : Node * bool :=
  match n with
  | Text s => (Text s, seen)
  | Element a cs =>
      let sec := has_tag "section" a in
      let a' := if sec && seen then set_display "flex" a else a in
      let '(cs', seen') :=
        (fix among (seen : bool) (l : list Node) : list Node * bool :=
           match l with
           | [] => ([], seen)
           | c :: l' =>
               let '(c', s1) := flex_later_sections seen c in
               let '(l'', s2) := among s1 l' in
               (c' :: l'', s2)
           end) (seen || sec) cs in
      (Element a' cs', seen')
  end.

(** An empty page, as [browser.newPage()] opens it. *)
Definition blank : Node :=
  Element {| tag := "html"; id := EmptyString; classes := []; display := None |}
    [ Element {| tag := "head"; id := EmptyString; classes := []; display := None |} [];
      Element {| tag := "body"; id := EmptyString; classes := []; display := None |} [] ].

End Dom.

(** ** Effects: exceptions, the pages of the browser, the console *)

Module Effects.
Import Dom TitleLocator.

(** A PDF byte buffer. *)
Definition Buffer := string.

(** A page of a pdf-lib document, by its content, and a document. *)
Definition PDFPage := string.
Abbreviation PDFDoc := (list PDFPage).

(** What a rejected promise or a [throw] carries. *)
Inductive Exn :=
| JsError (message : string)        (* [new Error(message)] of the program *)
| TypeError (what : string)         (* a property read on undefined or null *)
| SelectorError (selector : string) (* [page.$eval]: no element matches *)
| PdfLibError (method : string)     (* pdf-lib: page index out of range *)
| RenderError                       (* page.pdf rejected *)
| ParseError                        (* pdfjs getDocument rejected *)
| LoadError                         (* PDFDocument.load rejected *)
| WriteError.                       (* fs.writeFileSync threw *)

Inductive Outcome (A : Type) :=
| Ok (a : A)
| Throw (e : Exn).
Arguments Ok {A} a.
Arguments Throw {A} e.

(** A header or footer template: the empty string, the [outerHTML] of an
    element, or a literal fallback. *)
Inductive Template :=
| NoTemplate
| OuterHTML (n : Node)
| Literal (html : string).

(** The options object given to [page.pdf]. *)
Record Options := {
  format : string;
  displayHeaderFooter : bool;
  printBackground : bool;
  headerTemplate : Template;
  footerTemplate : Template;
  preferCSSPageSize : bool;
  margin_bottom : string;
  margin_top : string
}.

(** The collaborators, whose answers the program cannot compute:
    headless Chrome, pdfjs, pdf-lib and the file system.  [None] and
    [false] stand for a rejected promise or a thrown error.  The other
    calls that the program awaits ([browser.version], [newPage],
    [setUserAgent], [setContent], [page.evaluate], [page.close],
    [page.content], [save], [getPage], [getTextContent]) are taken to
    resolve. *)
Record Env := {
  launch : bool;
  parseHTML : string → Node;
  pdf : Node → Options → option Buffer;
  getDocument : Buffer → option PDFDocumentProxy;
  load : Buffer → option PDFDoc;
  save : PDFDoc → Buffer;
  writeFileSync : string → Node → bool
}.

Inductive PageId := Page1 | Page2.

(** What a run leaves behind, in order. *)
Inductive Event :=
| Log (text : string)               (* [log(text)], the time stamp left out *)
| ConsoleError (text : string)      (* [console.error] *)
| Enter (function : string)         (* a call of an exported function *)
| Launched                          (* puppeteer.launch *)
| Rendered (which : PageId) (o : Options) (* page.pdf *)
| Parsed (b : Buffer)               (* pdfjs getDocument *)
| Loaded (b : Buffer)               (* PDFDocument.load *)
| Saved (d : PDFDoc)                (* PDFDocument.save *)
| Written (path : string)           (* fs.writeFileSync *)
| Closed (which : PageId).          (* page.close *)

(** [page1] is the page handed to [generatePDF], [page2] the page it
    opens for rendering; [instance] is [Browser.instance != null]. *)
Record World := {
  instance : bool;
  page1 : Node;
  page2 : Node;
  trace : list Event
}.

Definition M (A : Type) : Type := World → Outcome A * World.

Definition ret {A} (a : A) : M A := fun w => (Ok a, w).

Definition throw {A} (e : Exn) : M A := fun w => (Throw e, w).

Definition bind {A B} (c : M A) (k : A → M B) : M B :=
  fun w =>
    match c w with
    | (Ok a, w') => k a w'
    | (Throw e, w') => (Throw e, w')
    end.

(** [try { c } catch (err) { h err }] *)
Definition try_catch {A} (c : M A) (h : Exn → M A) : M A :=
  fun w =>
    match c w with
    | (Ok a, w') => (Ok a, w')
    | (Throw e, w') => h e w'
    end.

Definition emit (e : Event) : M unit :=
  fun w => (Ok tt, {| instance := instance w; page1 := page1 w;
                      page2 := page2 w; trace := trace w ++ [e] |}).

Definition log (text : string) : M unit := emit (Log text).

(** [Browser.instance != null], and the assignment made by a launch. *)
Definition get_instance : M bool := fun w => (Ok (instance w), w).

Definition set_instance : M unit :=
  fun w => (Ok tt, {| instance := true; page1 := page1 w; page2 := page2 w;
                      trace := trace w |}).

Definition get_page (which : PageId) : M Node :=
  fun w => (Ok (match which with Page1 => page1 w | Page2 => page2 w end), w).

Definition set_page (which : PageId) (d : Node) : M unit :=
  fun w =>
    (Ok tt,
     match which with
     | Page1 => {| instance := instance w; page1 := d; page2 := page2 w; trace := trace w |}
     | Page2 => {| instance := instance w; page1 := page1 w; page2 := d; trace := trace w |}
     end).

(** A computation without effect on the world. *)
Definition lift {A} (o : Outcome A) : M A := fun w => (o, w).

(** The answer of a collaborator, [e] when it fails. *)
Definition answer {A} (e : Exn) (o : option A) : M A :=
  match o with
  | Some a => ret a
  | None => throw e
  end.

(** A computation only adds to the trace. *)
Definition grows {A} (c : M A) : Prop :=
  ∀ w, ∃ t, trace (c w).2 = trace w ++ t.

(** The world [w] with the events [es] added. *)
Definition logged (w : World) (es : list Event) : World :=
  {| instance := instance w; page1 := page1 w; page2 := page2 w;
     trace := trace w ++ es |}.

End Effects.

Declare Scope js_scope.
Delimit Scope js_scope with js.
Notation "'let*' x ':=' c 'in' k" := (Effects.bind c (fun x => k))
  (at level 10, x pattern, c at level 100, k at level 200) : js_scope.
Notation "c ';;' k" := (Effects.bind c (fun _ => k))
  (at level 100, k at level 200, right associativity) : js_scope.

(** ** The PDF assembler *)

Module Assembler.
Import Effects.
Open Scope js_scope.

(** pdf-lib's [removePage]: the index must be that of a page. *)
Definition removePage (i : nat) (d : PDFDoc) : Outcome PDFDoc :=
  if bool_decide (i < length d) then Ok (take i d ++ drop (S i) d)
  else Throw (PdfLibError "removePage").

(** pdf-lib's [insertPage]: the index is at most the page count. *)
Definition insertPage (i : nat) (p : PDFPage) (d : PDFDoc) : Outcome PDFDoc :=
  if bool_decide (i ≤ length d) then Ok (take i d ++ p :: drop i d)
  else Throw (PdfLibError "insertPage").

(** pdf-lib's [copyPages]: copies of the pages of [src] at [indices]. *)
Fixpoint copyPages (src : PDFDoc) (indices : list nat) : Outcome (list PDFPage) :=
  match indices with
  | [] => Ok []
  | i :: rest =>
      match src !! i, copyPages src rest with
      | Some p, Ok ps => Ok (p :: ps)
      | None, _ => Throw (TypeError "copyPages")
      | _, Throw e => Throw e
      end
  end.

(** [for (let i = 0; i < n; i++) doc.removePage(1)] *)
Fixpoint trim (n : nat) (d : PDFDoc) : Outcome PDFDoc :=
  match n with
  | 0 => Ok d
  | S n' =>
      match removePage 1 d with
      | Ok d' => trim n' d'
      | Throw e => Throw e
      end
  end.

(** Lines 325-347: what happens to the two loaded documents. *)
Definition merge_docs (firstPDFDoc restPDFDoc : PDFDoc) (extrapages : Z)
    : Outcome PDFDoc :=
  match removePage 0 restPDFDoc with
  | Throw e => Throw e
  | Ok restPDFDoc =>
      match (if (0 <? extrapages)%Z then trim (Z.to_nat extrapages) firstPDFDoc
             else Ok firstPDFDoc) with
      | Throw e => Throw e
      | Ok firstPDFDoc =>
          match copyPages firstPDFDoc [0] with
          | Throw e => Throw e
          | Ok [] => Throw (TypeError "copiedPages")
          | Ok (copiedPages :: _) => insertPage 0 copiedPages restPDFDoc
          end
      end
  end.

Definition count_mismatch : Exn :=
  JsError "mergePDFs requires exactly two PDF buffers.".

Definition mergePDFs (env : Env) (pdfBuffers : list Buffer) (extrapages : Z)
    : M Buffer :=
  if negb (length pdfBuffers =? 2) then throw count_mismatch
  else
    match pdfBuffers with
    | b0 :: b1 :: _ =>
        emit (Loaded b0);;
        let* firstPDFDoc := answer LoadError (load env b0) in
        emit (Loaded b1);;
        let* restPDFDoc := answer LoadError (load env b1) in
        let* merged := lift (merge_docs firstPDFDoc restPDFDoc extrapages) in
        emit (Saved merged);;
        ret (save env merged)
    | _ => throw (TypeError "pdfBuffers")
    end.

End Assembler.

(** ** The table-of-content injector *)

Module Injector.
Import JsString Dom TitleLocator Effects Assembler.
Open Scope js_scope.

(** [page.$eval('.totalPages', (element, count) => element.textContent = count, n)]
    and the second [$eval] that reads the field back for the log. *)
Definition updatePageCount (page : PageId) (firstPagesCount : nat) : M unit :=
  log "Mise à jour du total des pages.";;
  let* d := get_page page in
  match modify_first (has_class "totalPages")
          (set_textContent (pretty firstPagesCount)) d with
  | None => throw (SelectorError ".totalPages")
  | Some d' =>
      set_page page d';;
      match find_first (has_class "totalPages") d' with
      | None => throw (SelectorError ".totalPages")
      | Some element =>
          log ("Fin de la mise à jour du total des pages. " +:+ textContent element)
      end
  end.

(** The first script of [updateTableOfContent]: the text of the first
    element child of every entry; an entry without one makes
    [link.textContent] fail. *)
Fixpoint read_titles (entries : list Node) : Outcome (list string) :=
  match entries with
  | [] => Ok []
  | currentChild :: rest =>
      match children currentChild with
      | [] => Throw (TypeError "link")
      | link :: _ =>
          match read_titles rest with
          | Ok titles => Ok (textContent link :: titles)
          | Throw e => Throw e
          end
      end
  end.

(** [Object.entries(titlesPages)]: integer keys come in ascending order. *)
Definition key_le (x y : nat * list nat) : Prop := x.1 ≤ y.1.

#[local] Instance key_le_dec : RelDecision key_le :=
  fun x y => decide (x.1 ≤ y.1).

Definition entries (titlesPages : gmap nat (list nat)) : list (nat * list nat) :=
  merge_sort key_le (map_to_list titlesPages).

(** The [k]-th element child of a child list replaced by [f] of it. *)
Fixpoint modify_child (k : nat) (f : Node → Node) (cs : list Node) : list Node :=
  match cs with
  | [] => []
  | c :: cs' =>
      if is_element c then
        match k with
        | 0 => f c :: cs'
        | S k' => c :: modify_child k' f cs'
        end
      else c :: modify_child k f cs'
  end.

Definition span (class : string) (content : list Node) : Node :=
  Element {| tag := "span"; id := EmptyString; classes := [class]; display := None |}
    content.

(** The body of [childs.forEach(childIndex => ...)] for the key [page],
    on the container [toc]. *)
Definition inject_number (page : nat) (childIndex : nat) (toc : Node) : Outcome Node :=
  match children toc !! childIndex with
  | None => Ok toc
  | Some currentChild =>
      match querySelector (has_tag "a") currentChild with
      | None => Throw (TypeError "link")
      | Some link =>
          let titlePage :=
            span (if includes (textContent link) "." then "subtitle-page-number"
                  else "title-page-number") [Text (pretty page)] in
          let dots := span "dots" [] in
          let numbered (c : Node) : Node :=
            match c with
            | Text s => Text s
            | Element a cs =>
                match modify_among (has_tag "a")
                        (fun l => appendChild titlePage (appendChild dots l)) cs with
                | Some cs' => Element a cs'
                | None => c
                end
            end in
          match toc with
          | Text s => Ok toc
          | Element a cs => Ok (Element a (modify_child childIndex numbered cs))
          end
      end
  end.

(** The two nested loops of the second script; the container reached
    when an entry fails is kept, as the mutations made so far are. *)
Fixpoint inject_all (work : list (nat * nat)) (toc : Node) : Node * option Exn :=
  match work with
  | [] => (toc, None)
  | (page, childIndex) :: rest =>
      match inject_number page childIndex toc with
      | Ok toc' => inject_all rest toc'
      | Throw e => (toc, Some e)
      end
  end.

Definition worklist (titlesPages : gmap nat (list nat)) : list (nat * nat) :=
  flat_map (fun '(page, childs) => map (pair page) childs) (entries titlesPages).

Definition inject (page : PageId) (titlesPages : gmap nat (list nat)) : M unit :=
  let* d := get_page page in
  match find_first (has_id "table-of-content") d with
  | None => ret tt
  | Some toc =>
      let '(toc', failure) := inject_all (worklist titlesPages) toc in
      set_page page
        (default d (modify_first (has_id "table-of-content") (fun _ => toc') d));;
      match failure with
      | None => ret tt
      | Some e => throw e
      end
  end.

Definition updateTableOfContent (page : PageId) (pdf : PDFDocumentProxy)
    (extrapages : Z) : M unit :=
  log "Mise à jour du sommaire.";;
  let* d := get_page page in
  match find_first (has_id "table-of-content") d with
  | None => log "Le sommaire n'a pas été trouvé !"
  | Some tableOfContent =>
      let* titles := lift (read_titles (children tableOfContent)) in
      let titlesPages := find_page_number pdf titles extrapages in
      inject page titlesPages;;
      log "Fin de la mise à jour du sommaire."
  end.

End Injector.

(** ** The two-pass splitter and the orchestrator *)

Module Pipeline.
Import JsString Dom TitleLocator Effects Assembler Injector.
Open Scope js_scope.

(** [Browser.getInstance]: the browser is launched once and reused.
    (The message of a failed launch ends with the text of the cause,
    which is left out.) *)
Definition getInstance (env : Env) : M unit :=
  let* running := get_instance in
  if running then ret tt
  else
    log "Launching Puppeteer for PDF generation...";;
    emit Launched;;
    if launch env then
      set_instance;;
      log "Puppeteer launched successfully."
    else
      emit (ConsoleError "Puppeteer launch failed: ");;
      throw (JsError "Puppeteer launch failed: ").

(** The [outerHTML] of the element with the given id, or the fallback. *)
Definition template (i : string) (fallback : string) (d : Node) : Template :=
  match find_first (has_id i) d with
  | Some n => OuterHTML n
  | None => Literal fallback
  end.

Definition getHeader (page : PageId) : M Template :=
  let* d := get_page page in
  ret (template "header-container" "<div>header missing</div>" d).

Definition getFooter (page : PageId) : M Template :=
  let* d := get_page page in
  ret (template "footer" "<div>Footer first page missing</div>" d).

(** The script of [getFirstSection]: every section but the cover is
    hidden. *)
Definition hide_other_sections (a : Attrs) : Attrs :=
  if has_tag "section" a && negb (has_id "presentation" a) then set_display "none" a
  else a.

Definition getFirstSection (page : PageId) : M (Node * Template * Template) :=
  let* d := get_page page in
  let d' := map_elements hide_other_sections d in
  set_page page d';;
  ret (d',
       template "header-first-page" "<div>header first page missing</div>" d',
       template "footer-first-page" "<div>Footer first page missing</div>" d').

(** The script run on [page1] between the two calls of [getFirstSection]. *)
Definition show_sections (a : Attrs) : Attrs :=
  if has_tag "section" a then set_display "flex" a else a.

(** The script of [getAllSectionsExceptFirst]. *)
Definition clear_cover (extrapages : Z) (element : Node) : Node :=
  match element with
  | Text s => Text s
  | Element a cs =>
      Element (set_display "flex" a)
        (if (extrapages =? 0)%Z then
           map (fun child =>
                  match child with
                  | Text s => Text s
                  | Element b ds => Element (set_display "none" b) ds
                  end) cs
         else cs)
  end.

Definition getAllSectionsExceptFirst (page : PageId) (extrapages : Z) : M Node :=
  let* d := get_page page in
  let d1 := default d (modify_first (has_id "presentation") (clear_cover extrapages) d) in
  let d2 := (flex_later_sections false d1).1 in
  set_page page d2;;
  ret d2.

(** [page.pdf(options)] on the document the page holds. *)
Definition render (env : Env) (page : PageId) (o : Options) : M Buffer :=
  let* d := get_page page in
  emit (Rendered page o);;
  answer RenderError (pdf env d o).

(** [pdfjs.getDocument(new Uint8Array(pdfContent)).promise] *)
Definition parse (env : Env) (b : Buffer) : M PDFDocumentProxy :=
  emit (Parsed b);;
  answer ParseError (getDocument env b).

Definition options0 : Options :=
  {| format := "A4"; displayHeaderFooter := true; printBackground := true;
     headerTemplate := NoTemplate; footerTemplate := NoTemplate;
     preferCSSPageSize := false; margin_bottom := "25mm"; margin_top := "20mm" |}.

Definition with_templates (header footer : Template) (o : Options) : Options :=
  {| format := format o; displayHeaderFooter := displayHeaderFooter o;
     printBackground := printBackground o;
     headerTemplate := header; footerTemplate := footer;
     preferCSSPageSize := preferCSSPageSize o;
     margin_bottom := margin_bottom o; margin_top := margin_top o |}.

Definition with_margin_top (top : string) (o : Options) : Options :=
  {| format := format o; displayHeaderFooter := displayHeaderFooter o;
     printBackground := printBackground o;
     headerTemplate := headerTemplate o; footerTemplate := footerTemplate o;
     preferCSSPageSize := preferCSSPageSize o;
     margin_bottom := margin_bottom o; margin_top := top |}.

(** [generateHTML]: the page that holds the parsed HTML text. *)
Definition generateHTML (env : Env) (htmlPage : string) : M PageId :=
  emit (Enter "generateHTML");;
  getInstance env;;
  log "Chrome version:";;
  set_page Page1 (parseHTML env htmlPage);;
  ret Page1.

(** Lines 447-465: the cover alone is rendered to count its pages. *)
Definition probe_extrapages (env : Env) : M Z :=
  try_catch
    (log "Generating preliminary PDF for page number analysis...";;
     let* pdfContent := render env Page2 options0 in
     let* pdf := parse env pdfContent in
     ret (Z.of_nat (numPages pdf) - 1)%Z)
    (fun err =>
       emit (ConsoleError
               "Erreur lors de la récupération des pages initiales supplémentaires.");;
       throw err).

(** Lines 467-491: the whole document is rendered, then the page count
    and the table of content are written into [page1]. *)
Definition update_numbers (env : Env) (extrapages : Z) : M unit :=
  try_catch
    (log "Generating preliminary PDF for page number analysis...";;
     let* pdfContent := render env Page1 options0 in
     log "Preliminary PDF generated in memory.";;
     log "Parsing preliminary PDF with pdfjs...";;
     let* pdf := parse env pdfContent in
     log ("Preliminary PDF parsed. Pages count: " +:+ pretty (numPages pdf));;
     updatePageCount Page1 (numPages pdf);;
     updateTableOfContent Page1 pdf extrapages)
    (fun err =>
       emit (ConsoleError "Error updating table of content:");;
       throw err).

(** The body of the loop of lines 496-533 for [i = 0] and for [i = 1]. *)
Definition render_cover (env : Env) (content_after : Node) (header footer : Template)
    : M (Buffer * Options) :=
  log "--- Generating PDF Part 1 ---";;
  log "Loading extracted content into rendering page...";;
  set_page Page2 content_after;;
  log "Extracted content loaded.";;
  let options := with_templates header footer options0 in
  log "Generating PDF buffer for part 1...";;
  let* pdfBuffer := render env Page2 options in
  log "PDF buffer for part 1 generated.";;
  log "Temporary pages for part 1 closed.";;
  ret (pdfBuffer, options).

Definition render_body (env : Env) (extrapages : Z) (options : Options) : M Buffer :=
  log "--- Generating PDF Part 2 ---";;
  let* content_after := getAllSectionsExceptFirst Page1 extrapages in
  emit (Written "output.html");;
  (if writeFileSync env "output.html" content_after then ret tt else throw WriteError);;
  log "Loading extracted content into rendering page...";;
  set_page Page2 content_after;;
  log "Extracted content loaded.";;
  log "Extracting content for remaining sections...";;
  let* header := getHeader Page2 in
  let* footer := getFooter Page2 in
  log "Remaining sections extracted.";;
  let options := with_templates header footer (with_margin_top "35mm" options) in
  log "Generating PDF buffer for part 2...";;
  let* pdfBuffer := render env Page2 options in
  log "PDF buffer for part 2 generated.";;
  log "Temporary pages for part 2 closed.";;
  ret pdfBuffer.

(** Lines 493-547: the two final renders and the merge. *)
Definition final_passes (env : Env) (extrapages : Z) : M Buffer :=
  let* (content_after, header, footer) := getFirstSection Page1 in
  let* (cover, options) := render_cover env content_after header footer in
  let* body := render_body env extrapages options in
  let pdfBuffers := [cover; body] in
  emit (Closed Page2);;
  emit (Closed Page1);;
  log "Browser closed after generating PDF parts.";;
  if negb (length pdfBuffers =? 2) then
    throw (JsError ("Expected 2 PDF buffers, but got " +:+ pretty (length pdfBuffers)))
  else mergePDFs env pdfBuffers extrapages.

(** Lines 412-445: the browser, the rendering page, the cover loaded
    into it, and the sections of [page1] shown again. *)
Definition prepare (env : Env) : M unit :=
  getInstance env;;
  log "Chrome version:";;
  set_page Page2 blank;;
  let* (content_after, _, _) := getFirstSection Page1 in
  set_page Page2 content_after;;
  let* d := get_page Page1 in
  set_page Page1 (map_elements show_sections d).

Definition generatePDF (env : Env) : M Buffer :=
  emit (Enter "generatePDF");;
  prepare env;;
  let* extrapages := probe_extrapages env in
  update_numbers env extrapages;;
  final_passes env extrapages.

(** The run of [generatePDF] up to the count of the extra pages. *)
Definition upto_probe (env : Env) : M Z :=
  emit (Enter "generatePDF");;
  prepare env;;
  probe_extrapages env.

End Pipeline.

(** ** The HTTP front end *)

Module App.
Import Dom Effects Assembler Pipeline.
Open Scope js_scope.

(** [req.body] as the raw body parser installed on line 7 leaves it: a
    [Buffer] holding the bytes of the body when it parsed one, possibly
    none; otherwise [undefined], or an empty object with the versions of
    the parser that predefine the property. *)
Inductive Body :=
| Undefined
| EmptyObject
| BufferOf (bytes : string).

(** JavaScript truthiness: every object is truthy, a [Buffer] of
    length zero included. *)
Definition truthy (b : Body) : bool :=
  match b with
  | Undefined => false
  | EmptyObject => true
  | BufferOf _ => true
  end.

Definition toString (b : Body) : Outcome string :=
  match b with
  | Undefined => Throw (TypeError "htmlPage")
  | EmptyObject => Ok "[object Object]"
  | BufferOf bytes => Ok bytes
  end.

Record Request := { body : Body; report : option string }.

Inductive Payload :=
| TextPayload (text : string)
| PdfPayload (b : Buffer)
| PagePayload (d : Node).

Record Response := {
  status : nat;
  contentType : option string;
  payload : Payload
}.

Definition bad_request : Response :=
  {| status := 400; contentType := None;
     payload := TextPayload "Request body is empty." |}.

(** The [try] block of a handler and its [catch]: [work] is what the
    block awaits, [send] wraps its result for [res.send]. *)
Definition respond {A} (type : string) (send : A → Payload) (work : M A)
    : World → Response * World :=
  fun w =>
    match work w with
    | (Ok a, w') =>
        ({| status := 200; contentType := Some type; payload := send a |}, w')
    | (Throw e, w') =>
        ({| status := 500; contentType := Some type;
            payload := TextPayload "Error generating PDF" |},
         snd (emit (ConsoleError "Error generating PDF:") w'))
    end.

(** [app.post('/pdf_visualiser', ...)] *)
Definition pdf_visualiser (env : Env) (req : Request) : World → Response * World :=
  fun w =>
    let htmlPage := body req in
    if negb (truthy htmlPage) then (bad_request, w)
    else
      respond "application/pdf" PdfPayload
        (let* text := lift (toString htmlPage) in
         generateHTML env text;;
         generatePDF env) w.

(** [app.post('/html_visualiser', ...)] *)
Definition html_visualiser (env : Env) (req : Request) : World → Response * World :=
  fun w =>
    let htmlPage := body req in
    if negb (truthy htmlPage) then (bad_request, w)
    else
      respond "text/html" PagePayload
        (let* text := lift (toString htmlPage) in
         let* html := generateHTML env text in
         get_page html) w.

(** A POST whose body holds no byte: the parser hands the handler a
    [Buffer] of length zero. *)
Definition empty_post : Request :=
  {| body := BufferOf EmptyString; report := None |}.

(** A request on which the parser left [req.body] undefined. *)
Definition bodiless_post : Request := {| body := Undefined; report := None |}.

End App.

(** ** Example documents and collaborators *)

Module Demo.
Import JsString Dom TitleLocator Effects Pipeline.

Definition plain (t : string) : Attrs :=
  {| tag := t; id := EmptyString; classes := []; display := None |}.

(** A report: the cover section, a section with the page count, and no
    table of content. *)
Definition report_without_toc : Node :=
  Element (plain "html")
    [ Element (plain "body")
        [ Element {| tag := "section"; id := "presentation"; classes := [];
                     display := None |} [Text "Survey 2024"];
          Element (plain "section")
            [ Element {| tag := "span"; id := EmptyString;
                         classes := ["totalPages"]; display := None |} [];
              Text "Introduction" ] ] ].

(** The same report without the page-count field. *)
Definition report_without_total : Node :=
  Element (plain "html")
    [ Element (plain "body")
        [ Element {| tag := "section"; id := "presentation"; classes := [];
                     display := None |} [Text "Survey 2024"];
          Element (plain "section") [Text "Introduction"] ] ].

Definition hidden (a : Attrs) : bool :=
  has_tag "section" a && bool_decide (display a = Some "none").

(** Collaborators for the examples: the empty text parses to the blank
    page; a buffer lists its pages as words; the cover render has one
    page, the body render a blank page and two more, the preliminary
    render four pages. *)
Definition env : Env :=
  {| launch := true;
     parseHTML := fun text =>
       if bool_decide (text = EmptyString) then blank else report_without_toc;
     pdf := fun d o =>
       Some (if bool_decide (margin_top o = "35mm") then "blank intro scope"
             else match find_first hidden d with
                  | Some _ => "cover"
                  | None => "cover contents intro scope"
                  end);
     getDocument := fun b => Some (map (fun w => [run w]) (String.words b));
     load := fun b => Some (String.words b);
     save := fun d => foldr (fun p acc => p +:+ " " +:+ acc) EmptyString d;
     writeFileSync := fun _ _ => true |}.

Definition world (d : Node) : World :=
  {| instance := false; page1 := d; page2 := blank; trace := [] |}.

(** The worlds in which the probe leaves the two example reports. *)
Definition probed_without_toc : World :=
  Eval vm_compute in (upto_probe env (world report_without_toc)).2.

Definition probed_without_total : World :=
  Eval vm_compute in (upto_probe env (world report_without_total)).2.

End Demo.

(** ** Queries on the document *)

Module DomQueries.
Import JsString Dom.

(** A script that rewrites the children of an element and leaves what
    the selectors read as it is. *)
Definition keeps_attrs (f : Node → Node) : Prop :=
  ∀ a cs, ∃ cs', f (Element a cs) = Element a cs'.

(** The text of a list of sibling nodes. *)
Fixpoint text_of (l : list Node) : string :=
  match l with
  | [] => EmptyString
  | c :: l' => textContent c +:+ text_of l'
  end.

(** [querySelectorAll('*')]: the elements of a document in document
    order, by what the selectors read. *)
Fixpoint all_attrs (n : Node) : list Attrs :=
  match n with
  | Text _ => []
  | Element a cs => a :: concat (map all_attrs cs)
  end.

Definition querySelectorAll (sel : Attrs → bool) (n : Node) : list Attrs :=
  filter (fun a => sel a = true) (all_attrs n).

(** The loop [sections.forEach((section, i) => ...)] of
    [getAllSectionsExceptFirst] on the list of all elements. *)
Fixpoint flex_list (seen : bool) (l : list Attrs) : list Attrs * bool :=
  match l with
  | [] => ([], seen)
  | a :: l' =>
      let sec := has_tag "section" a in
      let '(r, s) := flex_list (seen || sec) l' in
      ((if sec && seen then set_display "flex" a else a) :: r, s)
  end.

(** The same loop through a list of siblings. *)
Fixpoint flex_among (seen : bool) (l : list Node) : list Node * bool :=
  match l with
  | [] => ([], seen)
  | c :: l' =>
      let '(c', s1) := flex_later_sections seen c in
      let '(l'', s2) := flex_among s1 l' in
      (c' :: l'', s2)
  end.

End DomQueries.

(** ** Runs of a computation *)

Module Runs.
Import Dom Effects.

(** Every run of [c] relates the world it starts in to the world it
    ends in by [R]. *)
Definition run_inv (R : relation World) {A} (c : M A) : Prop :=
  ∀ w, R w (c w).2.

(** The second world has the trace of the first and more events, all
    of them satisfying [P]. *)
Definition adds (P : Event → Prop) : relation World :=
  fun w w' => ∃ t, trace w' = trace w ++ t ∧ Forall P t.

(** As [adds], for a run that starts with the browser launched, and
    the browser is still there at the end. *)
Definition keeps_browser (P : Event → Prop) : relation World :=
  fun w w' => instance w = true → instance w' = true ∧ adds P w w'.

(** [c] throws nothing but exceptions that satisfy [P]. *)
Definition throws_only (P : Exn → Prop) {A} (c : M A) : Prop :=
  ∀ w e, (c w).1 = Throw e → P e.

Definition not_closed (e : Event) : Prop := ∀ which, e ≠ Closed which.

Definition not_launched (e : Event) : Prop := e ≠ Launched.

(** The exceptions of the stages of [generatePDF] that come before the
    merge. *)
Definition early (e : Exn) : Prop :=
  match e with
  | RenderError | ParseError | WriteError => True
  | SelectorError selector => selector = ".totalPages"
  | TypeError what => what = "link"
  | JsError message => message = "Puppeteer launch failed: "
  | _ => False
  end.

(** The exceptions of [mergePDFs] on two buffers. *)
Definition late (e : Exn) : Prop :=
  e = LoadError ∨ e = PdfLibError "removePage" ∨ e = TypeError "copyPages".

(** The exceptions that are not an [Error] the program constructs
    itself: the rejections and throws of the libraries. *)
Definition library_error (e : Exn) : Prop := ∀ message, e ≠ JsError message.

Definition is_launch (e : Event) : bool :=
  match e with Launched => true | _ => false end.

(** The number of calls of [puppeteer.launch] in a trace. *)
Definition launches (t : list Event) : nat :=
  length (filter (fun e => is_launch e = true) t).

End Runs.

(** ** The command line *)

Module Cli.
Import JsString Dom Effects Pipeline.
Open Scope js_scope.

Definition REPORT_HTML : string := "rapport.html".

(** The file system and [path.join], beside the collaborators of
    [Env]: [None] and [false] stand for a thrown error. *)
Record Fs := {
  readFileSync : string → option string;
  writeBuffer : string → Buffer → bool;
  path_join : string → string → string
}.

(** [String.prototype.toLowerCase] on the letters A to Z.  The other
    characters are left as they are: the lower case of none of them
    holds a letter of the two action names, so the comparisons of
    [main] are those of the program. *)
Definition lower (a : ascii) : ascii :=
  let n := nat_of_ascii a in
  if (65 <=? n) && (n <=? 90) then ascii_of_nat (n + 32) else a.

Fixpoint toLowerCase (s : string) : string :=
  match s with
  | EmptyString => EmptyString
  | String a s' => String (lower a) (toLowerCase s')
  end.

(** How the process ends: [main] returns, or [process.exit(code)]. *)
Inductive Exit :=
| Returned
| ExitCode (code : nat).

(** [createHTMLFile]; [process.argv] is [argv], a missing argument is
    [undefined], which [path.join] refuses.  The lines of [console.log]
    are recorded as [Log] events, by their first argument; a message
    that ends with the text of a cause is cut before it. *)
Definition createHTMLFile (env : Env) (fs : Fs) (argv : list string) : M unit :=
  let reportName := argv !! 3 in
  let outputPath := argv !! 4 in
  log "Generating intermediate HTML from ";;
  match outputPath with
  | None => throw (TypeError "path")
  | Some outputPath =>
      let* content :=
        match readFileSync fs (path_join fs outputPath REPORT_HTML) with
        | Some content => ret content
        | None =>
            emit (ConsoleError ("Failed to read input HTML file: " +:+
                                path_join fs outputPath REPORT_HTML));;
            throw (JsError "Failed to read input HTML: ")
        end in
      try_catch
        (let* finalHtmlContent := generateHTML env content in
         match reportName with
         | None => throw (TypeError "path")
         | Some reportName =>
             let* d := get_page finalHtmlContent in
             emit (Written (path_join fs outputPath reportName));;
             (if writeFileSync env (path_join fs outputPath reportName) d then ret tt
              else throw WriteError);;
             log ("Final HTML with updated TOC saved to: " +:+
                  path_join fs outputPath reportName)
         end)
        (fun writeErr =>
           match reportName with
           | None => throw (TypeError "path")
           | Some reportName =>
               emit (ConsoleError ("Failed to write final HTML file: " +:+
                                   path_join fs outputPath reportName));;
               throw (JsError "Failed to write final HTML: ")
           end)
  end.

(** [createPDFFile] *)
Definition createPDFFile (env : Env) (fs : Fs) (argv : list string) : M unit :=
  match argv !! 3 with
  | None => throw (TypeError "reportName")
  | Some reportName =>
      let inputHtmlFileName := replace ".pdf" ".html" reportName in
      match argv !! 4 with
      | None => throw (TypeError "path")
      | Some outputPath =>
          let inputHtmlPath := path_join fs outputPath inputHtmlFileName in
          log ("Reading final HTML from: " +:+ inputHtmlPath);;
          let* content_before :=
            match readFileSync fs inputHtmlPath with
            | Some content =>
                log "Final HTML read successfully.";;
                ret content
            | None =>
                emit (ConsoleError ("Failed to read final HTML file: " +:+
                                    inputHtmlPath));;
                throw (JsError ("File not found: " +:+ inputHtmlPath))
            end in
          getInstance env;;
          set_page Page1 (parseHTML env content_before);;
          let* mergedPdfBuffer := generatePDF env in
          let finalPdfPath := path_join fs outputPath reportName in
          emit (Written finalPdfPath);;
          if writeBuffer fs finalPdfPath mergedPdfBuffer then
            log "Final merged PDF saved successfully:"
          else
            emit (ConsoleError "Error during PDF merging or saving:");;
            throw (JsError "PDF merging/saving failed: ")
      end
  end.

(** [main]: [process.exit(1)] in a [catch] ends the process there. *)
Definition main (env : Env) (fs : Fs) (argv : list string) : M Exit :=
  if length argv <=? 2 then
    log "Usage: node index.js <pdf|html> <output_name> <output_path> [report_type]";;
    ret Returned
  else
    match argv !! 2 with
    | None => throw (TypeError "toLowerCase")
    | Some arg =>
        let action := toLowerCase arg in
        if String.eqb action "pdf" then
          try_catch
            (createPDFFile env fs argv;;
             log "PDF generated successfully!";;
             ret (ExitCode 0))
            (fun err =>
               emit (ConsoleError "Error generating PDF:");;
               ret (ExitCode 1))
        else if String.eqb action "html" then
          try_catch
            (createHTMLFile env fs argv;;
             log "HTML generated successfully!";;
             ret (ExitCode 0))
            (fun err =>
               emit (ConsoleError "Error generating HTML:");;
               ret (ExitCode 1))
        else
          emit (ConsoleError ("Unknown action: " +:+ action +:+
                              ". Use 'pdf' or 'html'."));;
          ret (ExitCode 0)
    end.

(** [main().catch(...)], the last statement of the script. *)
Definition script (env : Env) (fs : Fs) (argv : list string) : M Exit :=
  try_catch (main env fs argv)
    (fun err =>
       emit (ConsoleError "Unhandled error in main execution:");;
       ret (ExitCode 1)).

End Cli.

(** ** More examples *)

Module Samples.
Import JsString Dom TitleLocator Effects Pipeline App Cli.

(** A table of content of two entries. *)
Definition contents : Node :=
  Element {| tag := "ul"; id := "table-of-content"; classes := []; display := None |}
    [ Element (Demo.plain "li") [Element (Demo.plain "a") [Text "Introduction"]];
      Element (Demo.plain "li") [Element (Demo.plain "a") [Text "1. Scope"]] ].

Definition first_entry : Node :=
  Element (Demo.plain "li") [Element (Demo.plain "a") [Text "Introduction"]].

Definition first_link : Node := Element (Demo.plain "a") [Text "Introduction"].

(** The runs of [generatePDF] on the two example reports. *)
Definition generated : Outcome Buffer * World :=
  Eval vm_compute in generatePDF Demo.env (Demo.world Demo.report_without_toc).

Definition failed : Outcome Buffer * World :=
  Eval vm_compute in generatePDF Demo.env (Demo.world Demo.report_without_total).

(** Collaborators whose browser cannot be launched, and the run of
    [generatePDF] on them. *)
Definition unlaunchable : Env :=
  {| launch := false; parseHTML := parseHTML Demo.env; pdf := pdf Demo.env;
     getDocument := getDocument Demo.env; load := load Demo.env;
     save := save Demo.env; writeFileSync := writeFileSync Demo.env |}.

Definition launch_failed : World :=
  Eval vm_compute in (generatePDF unlaunchable (Demo.world blank)).2.

(** A POST of an HTML text, and the answers of the two handlers. *)
Definition post : Request := {| body := BufferOf "<html>"; report := None |}.

Definition html_answer : Response * World :=
  Eval vm_compute in html_visualiser Demo.env post (Demo.world blank).

Definition pdf_answer : Response * World :=
  Eval vm_compute in pdf_visualiser Demo.env post (Demo.world blank).

(** A directory that holds the two input files. *)
Definition files : Fs :=
  {| readFileSync := fun p =>
       if bool_decide (p = "out/rapport.html") || bool_decide (p = "out/report.html")
       then Some "<html>" else None;
     writeBuffer := fun _ _ => true;
     path_join := fun a b => a +:+ "/" +:+ b |}.

Definition html_argv : list string :=
  ["node"; "index.js"; "html"; "report.html"; "out"].

Definition pdf_argv : list string :=
  ["node"; "index.js"; "PDF"; "report.pdf"; "out"].

Definition html_file : Outcome unit * World :=
  Eval vm_compute in createHTMLFile Demo.env files html_argv (Demo.world blank).

Definition pdf_file : Outcome unit * World :=
  Eval vm_compute in createPDFFile Demo.env files pdf_argv (Demo.world blank).

End Samples.

(** * Properties *)

(** ** The title locator *)

Module TitleLocatorFacts.
Import JsString TitleLocator.
#[local] Arguments String.append : simpl nomatch.

Lemma append_empty_r s : s +:+ EmptyString = s.
Proof. induction s; simpl; congruence. Qed.

Lemma append_assoc (a b c : string) : (a +:+ b) +:+ c = a +:+ (b +:+ c).
Proof. induction a; simpl; congruence. Qed.

Lemma startsWith_spec s t : startsWith s t = true <-> exists b, s = t +:+ b.
Proof.
  revert s. induction t as [|c t IH]; intros s; simpl.
  - split; [intros _; exists s; reflexivity | reflexivity].
  - destruct s as [|a s].
    + split; [discriminate | intros [b Hb]; discriminate].
    + destruct (Ascii.eqb_spec a c) as [->|Hne].
      * rewrite IH. split; intros [b Hb]; exists b; simpl in *; congruence.
      * split; [discriminate | intros [b Hb]; simpl in Hb; congruence].
Qed.

Lemma includes_spec s t : includes s t = true <-> exists a b, s = a +:+ t +:+ b.
Proof.
  induction s as [|c s IH]; simpl.
  - rewrite orb_false_r, startsWith_spec. split.
    + intros [b Hb]. exists EmptyString, b. done.
    + intros [a [b Hb]]. destruct a; simpl in Hb; [by exists b | discriminate].
  - rewrite orb_true_iff, startsWith_spec, IH. split.
    + intros [[b Hb] | [a [b Hb]]].
      * exists EmptyString, b. done.
      * exists (String c a), b. simpl. congruence.
    + intros [a [b Hb]]. destruct a as [|c' a]; simpl in Hb.
      * left. by exists b.
      * right. exists a, b. congruence.
Qed.

Lemma assign_pages_snoc E e :
  assign_pages (E ++ [e]) = push (page e) (index e) (assign_pages E).
Proof. unfold assign_pages. by rewrite fold_left_app. Qed.

Lemma later_matches_snoc before E e :
  later_matches before (E ++ [e]) =
  later_matches before E ++
    (if bool_decide (title e ∈ map title (before ++ E)) then [e] else []).
Proof.
  revert before. induction E as [|x E IH]; intros before; simpl.
  - by rewrite !app_nil_r.
  - rewrite IH, <- !app_assoc. simpl. done.
Qed.

Lemma Sim_check_title ex p st ms i t :
  Sim ex st ms → Sim ex (check_title ex p st i t) (note_match p ms i t).
Proof.
  intros (Hb & Hm & Hf). unfold check_title, note_match, Sim, assigned in *.
  rewrite Hb. destruct (includes (buffer ms) t); [|done].
  destruct (0 <? ex)%Z; simpl.
  - rewrite later_matches_snoc. simpl. case_bool_decide as Hin; simpl.
    + rewrite bool_decide_true by (by apply Hf).
      rewrite assign_pages_snoc, Hm. split_and!; [done..|].
      intros t'. rewrite Hf, map_app, elem_of_app. simpl.
      rewrite list_elem_of_singleton. split; [auto|].
      intros [?| ->]; [done|]. by apply Hf.
    + rewrite bool_decide_false by (by rewrite <- Hf).
      rewrite app_nil_r. split_and!; [done..|].
      intros t'. rewrite map_app, !elem_of_app, Hf. simpl.
      by rewrite !list_elem_of_singleton.
  - rewrite andb_false_r. simpl. rewrite assign_pages_snoc, Hm. done.
Qed.

Lemma Sim_forEach ex p T : ∀ i st ms,
  Sim ex st ms → Sim ex (forEach_title ex p i T st) (forEach_match p i T ms).
Proof.
  induction T as [|t T IH]; intros i st ms H; simpl; [done|].
  apply IH. by apply Sim_check_title.
Qed.

Lemma Sim_items ex T p items : ∀ st ms,
  Sim ex st ms → Sim ex (scan_items ex T p items st) (match_items T p items ms).
Proof.
  induction items as [|it items IH]; intros st ms H; simpl; [done|].
  apply IH, Sim_forEach. destruct H as (Hb & Hm & Hf).
  unfold Sim, append_item; simpl. by rewrite Hb.
Qed.

Lemma Sim_pages ex T pages : ∀ p st ms,
  Sim ex st ms → Sim ex (scan_pages ex T p pages st) (match_pages T p pages ms).
Proof.
  induction pages as [|pc pages IH]; intros p st ms H; simpl; [done|].
  apply IH, Sim_items. destruct H as (Hb & Hm & Hf).
  unfold Sim, reset_text; simpl. done.
Qed.

Lemma scan_match_events pdf T ex :
  Sim ex (scan pdf T ex)
    (match_pages T 3 (drop 2 pdf) {| events := []; buffer := EmptyString |}).
Proof.
  apply Sim_pages. unfold Sim, initial, assigned; simpl.
  split_and!; [done| by destruct (0 <? ex)%Z |].
  destruct (0 <? ex)%Z; [|done]. intros t. simpl. done.
Qed.

Lemma find_page_number_events pdf T ex :
  find_page_number pdf T ex = assign_pages (assigned ex (match_events pdf T)).
Proof. apply (scan_match_events pdf T ex). Qed.

Lemma indices_on_push p i m q :
  indices_on (push p i m) q =
  if decide (p = q) then indices_on m q ++ [i] else indices_on m q.
Proof.
  unfold indices_on, push. destruct (m !! p) as [l|] eqn:Hp.
  - rewrite lookup_insert. case_decide; subst; simpl; [by rewrite Hp | done].
  - rewrite lookup_insert. case_decide; subst; simpl; [by rewrite Hp | done].
Qed.

Lemma elem_of_assign_pages E p i :
  i ∈ indices_on (assign_pages E) p ↔ ∃ e, e ∈ E ∧ page e = p ∧ index e = i.
Proof.
  induction E as [|e E IH] using rev_ind.
  - unfold indices_on, assign_pages. simpl. rewrite lookup_empty. simpl.
    split; [by intros ?%elem_of_nil | by intros (e & ?%elem_of_nil & _)].
  - rewrite assign_pages_snoc, indices_on_push. case_decide as Hp.
    + rewrite elem_of_app, IH, list_elem_of_singleton. split.
      * intros [(e' & He' & ?) | ->].
        -- exists e'. rewrite elem_of_app. auto.
        -- exists e. rewrite elem_of_app, list_elem_of_singleton. auto.
      * intros (e' & [He' | ->%list_elem_of_singleton]%elem_of_app & Hq & Hi).
        -- left. eauto.
        -- by right.
    + rewrite IH. split.
      * intros (e' & He' & ?). exists e'. rewrite elem_of_app. auto.
      * intros (e' & [He' | ->%list_elem_of_singleton]%elem_of_app & Hq & Hi);
          [eauto | done].
Qed.

Lemma elem_of_later_matches e E : ∀ before,
  e ∈ later_matches before E ↔
  ∃ E1 E2, E = E1 ++ e :: E2 ∧ title e ∈ map title (before ++ E1).
Proof.
  induction E as [|x E IH]; intros before; simpl.
  - split; [by intros ?%elem_of_nil|]. intros (E1 & E2 & HE & _).
    by destruct E1.
  - rewrite elem_of_app, IH. split.
    + intros [Hx | (E1 & E2 & -> & Hin)].
      * case_bool_decide as Hd; [|by apply elem_of_nil in Hx].
        apply list_elem_of_singleton in Hx as ->.
        exists [], E. by rewrite app_nil_r.
      * exists (x :: E1), E2. split; [done|].
        by rewrite <- app_assoc in Hin.
    + intros (E1 & E2 & HE & Hin). destruct E1 as [|y E1]; simplify_eq/=.
      * left. rewrite app_nil_r in Hin. rewrite bool_decide_true by done.
        by apply list_elem_of_singleton.
      * right. exists E1, E2. split; [done|]. by rewrite <- app_assoc.
Qed.

Lemma later_matches_subseteq before E : later_matches before E ⊆ E.
Proof.
  intros e (E1 & E2 & -> & _)%elem_of_later_matches.
  rewrite elem_of_app, elem_of_cons. auto.
Qed.

Lemma assigned_subseteq ex E : assigned ex E ⊆ E.
Proof.
  unfold assigned. destruct (0 <? ex)%Z; [apply later_matches_subseteq | done].
Qed.

(** Soundness of the match events *)

Lemma page_text_app l1 l2 : page_text (l1 ++ l2) = page_text l1 +:+ page_text l2.
Proof.
  induction l1 as [|it l1 IH]; simpl; [done|]. by rewrite IH, append_assoc.
Qed.

Section sound.
Context (P : Match → Prop) (T : list string) (p : nat) (text : string).
Hypothesis HP : ∀ i t, T !! i = Some t → includes text t = true →
  P {| page := p; index := i; title := t |}.

Lemma forEach_match_sound T' : ∀ T0 ms,
  T = T0 ++ T' →
  Forall P (events ms) →
  (∃ a b, text = a +:+ buffer ms +:+ b) →
  Forall P (events (forEach_match p (length T0) T' ms)) ∧
  (buffer (forEach_match p (length T0) T' ms) = buffer ms ∨
   buffer (forEach_match p (length T0) T' ms) = EmptyString).
Proof.
  induction T' as [|t T' IH]; intros T0 ms HT Hev Hbuf; simpl; [auto|].
  destruct (IH (T0 ++ [t]) (note_match p ms (length T0) t)) as [H1 H2].
  - by rewrite <- app_assoc.
  - unfold note_match. destruct (includes (buffer ms) t) eqn:Hinc; [|done].
    simpl. apply Forall_app. split; [done|]. apply Forall_singleton, HP.
    + rewrite HT. by rewrite lookup_app_r, Nat.sub_diag by done.
    + destruct Hbuf as (a & b & ->).
      apply includes_spec in Hinc as (x & y & ->).
      apply includes_spec. exists (a +:+ x), (y +:+ b).
      by rewrite !append_assoc.
  - unfold note_match. destruct (includes (buffer ms) t); [|done].
    simpl. exists text, EmptyString. by rewrite append_empty_r.
  - rewrite length_app, Nat.add_1_r in H1, H2. split; [done|].
    destruct H2 as [-> | ->]; [|by right].
    unfold note_match. destruct (includes (buffer ms) t); simpl; auto.
Qed.
End sound.

Lemma match_items_sound (P : Match → Prop) T p pc
    (HP : ∀ i t, T !! i = Some t → includes (page_text pc) t = true →
          P {| page := p; index := i; title := t |}) items :
  ∀ seen ms,
  pc = seen ++ items →
  Forall P (events ms) →
  (∃ a, page_text seen = a +:+ buffer ms) →
  Forall P (events (match_items T p items ms)).
Proof.
  induction items as [|it items IH]; intros seen ms Hpc Hev [a Ha]; simpl; [done|].
  set (ms' := {| events := events ms;
                 buffer := buffer ms +:+ replace newline EmptyString (str it) |}).
  destruct (forEach_match_sound P T p (page_text pc) HP T [] ms') as [H1 H2];
    [done | done | |].
  { exists a, (page_text items). rewrite Hpc, page_text_app, Ha. simpl.
    by rewrite !append_assoc. }
  simpl in H1, H2. apply (IH (seen ++ [it])); [by rewrite <- app_assoc | done |].
  rewrite page_text_app. simpl. rewrite append_empty_r.
  destruct H2 as [-> | ->].
  - exists a. simpl. by rewrite Ha, append_assoc.
  - eexists. by rewrite append_empty_r.
Qed.

Lemma match_pages_sound pdf T pages : ∀ p ms,
  3 ≤ p →
  (∀ j pc, pages !! j = Some pc → pdf !! (p + j - 1) = Some pc) →
  Forall (sound pdf T) (events ms) →
  Forall (sound pdf T) (events (match_pages T p pages ms)).
Proof.
  induction pages as [|pc pages IH]; intros p ms Hp Hlk Hev; simpl; [done|].
  apply IH; [lia | |].
  - intros j pc' Hj. replace (S p + j - 1) with (p + S j - 1) by lia.
    by apply Hlk.
  - apply (match_items_sound _ T p pc) with (seen := []); [|done|done|].
    + intros i t Hi Hinc. split_and!; simpl; [done..|].
      exists pc. split; [|done]. specialize (Hlk 0 pc eq_refl).
      by rewrite Nat.add_0_r in Hlk.
    + by exists EmptyString.
Qed.

Lemma match_events_sound pdf T : Forall (sound pdf T) (match_events pdf T).
Proof.
  apply match_pages_sound; [lia | | by apply Forall_nil].
  intros j pc. rewrite lookup_drop. intros Hj.
  by replace (3 + j - 1) with (2 + j) by lia.
Qed.

Lemma replace_newline_cons a s :
  replace newline EmptyString (String a s) =
  if Ascii.eqb a (ascii_of_nat 10) then s
  else String a (replace newline EmptyString s).
Proof. unfold newline. simpl. by destruct (Ascii.eqb a (ascii_of_nat 10)). Qed.

Lemma remove_newlines_none s : count_newlines s = 0 → remove_newlines s = s.
Proof.
  induction s as [|b s IH]; simpl; [done|].
  destruct (Ascii.eqb b (ascii_of_nat 10)); [done|]. intros H. by rewrite IH.
Qed.

Lemma replace_newline_once s :
  count_newlines s ≤ 1 → replace newline EmptyString s = remove_newlines s.
Proof.
  induction s as [|a s IH]; [done|].
  rewrite replace_newline_cons. simpl.
  destruct (Ascii.eqb a (ascii_of_nat 10)); simpl; intros H.
  - symmetry. apply remove_newlines_none. lia.
  - by rewrite IH.
Qed.

Lemma page_text_clean items :
  Forall (fun it => count_newlines (str it) ≤ 1) items →
  page_text items = clean_text items.
Proof.
  induction 1 as [|it items H _ IH]; simpl; [done|].
  by rewrite replace_newline_once, IH.
Qed.

Lemma find_page_number_sound pdf T ex p i :
  i ∈ indices_on (find_page_number pdf T ex) p →
  3 ≤ p ≤ numPages pdf ∧
  ∃ t pc, T !! i = Some t ∧ pdf !! (p - 1) = Some pc ∧
          includes (page_text pc) t = true.
Proof.
  rewrite find_page_number_events.
  intros (e & He%assigned_subseteq & <- & <-)%elem_of_assign_pages.
  pose proof (match_events_sound pdf T) as Hs.
  rewrite Forall_forall in Hs. destruct (Hs e He) as (H3 & HT & pc & Hpc & Hinc).
  split; [|by eauto]. split; [done|].
  apply lookup_lt_Some in Hpc. unfold numPages. lia.
Qed.

Lemma scan_items_text ex T p pc1 : ∀ pc2 st,
  map str pc1 = map str pc2 →
  scan_items ex T p pc1 st = scan_items ex T p pc2 st.
Proof.
  induction pc1 as [|it1 pc1 IH]; intros [|it2 pc2] st H; simplify_eq/=; [done|].
  rewrite (IH pc2) by done. f_equal. unfold append_item. by rewrite H.
Qed.

Lemma scan_pages_text ex T l1 : ∀ l2 p st,
  map (map str) l1 = map (map str) l2 →
  scan_pages ex T p l1 st = scan_pages ex T p l2 st.
Proof.
  induction l1 as [|pc1 l1 IH]; intros [|pc2 l2] p st H; simplify_eq/=; [done|].
  rewrite (IH l2) by done. f_equal. by apply scan_items_text.
Qed.

Lemma scan_text pdf1 pdf2 T ex :
  map (map str) pdf1 = map (map str) pdf2 →
  scan pdf1 T ex = scan pdf2 T ex.
Proof.
  intros H. unfold scan. apply scan_pages_text.
  rewrite <- !List.skipn_map. f_equal. exact H.
Qed.

Lemma remove_newlines_app a b :
  remove_newlines (a +:+ b) = remove_newlines a +:+ remove_newlines b.
Proof.
  induction a as [|c a IH]; simpl; [done|].
  destruct (Ascii.eqb c (ascii_of_nat 10)); simpl; by rewrite IH.
Qed.

Lemma remove_newlines_replace s :
  remove_newlines (replace newline EmptyString s) = remove_newlines s.
Proof.
  induction s as [|c s IH]; [done|].
  rewrite replace_newline_cons. simpl.
  destruct (Ascii.eqb c (ascii_of_nat 10)) eqn:E; simpl; [done|].
  by rewrite E, IH.
Qed.

Lemma clean_text_page_text items :
  clean_text items = remove_newlines (page_text items).
Proof.
  induction items as [|it items IH]; simpl; [done|].
  by rewrite remove_newlines_app, remove_newlines_replace, IH.
Qed.

(** A text without newline that occurs in a text still occurs in it
    once the newlines around are removed. *)
Lemma includes_remove_newlines s t :
  count_newlines t = 0 → includes s t = true →
  includes (remove_newlines s) t = true.
Proof.
  intros Ht (a & b & ->)%includes_spec. apply includes_spec.
  exists (remove_newlines a), (remove_newlines b).
  by rewrite !remove_newlines_app, (remove_newlines_none t).
Qed.

(** The list of a page holds the indices of the matches assigned on
    that page, one entry for every match, in the order of the scan. *)
Lemma indices_on_assign_pages E p :
  indices_on (assign_pages E) p = map index (filter (fun e => page e = p) E).
Proof.
  induction E as [|e E IH] using rev_ind.
  - unfold indices_on, assign_pages. simpl. by rewrite lookup_empty.
  - rewrite assign_pages_snoc, indices_on_push, filter_app, map_app, IH.
    rewrite filter_cons, filter_nil.
    case_decide as Hp; destruct (decide (page e = p)); try done.
    by rewrite app_nil_r.
Qed.

(** The matches that are assigned: all of them without extra pages,
    and with extra pages those whose title has matched before. *)
Lemma elem_of_assigned ex E e :
  e ∈ assigned ex E ↔
  ∃ E1 E2, E = E1 ++ e :: E2 ∧ ((0 < ex)%Z → title e ∈ map title E1).
Proof.
  unfold assigned. destruct (0 <? ex)%Z eqn:Hex.
  - apply Z.ltb_lt in Hex. rewrite elem_of_later_matches. simpl.
    split; intros (E1 & E2 & HE & Hin); exists E1, E2; split; auto.
  - apply Z.ltb_ge in Hex. split.
    + intros (E1 & E2 & HE)%list_elem_of_split. exists E1, E2.
      split; [done | lia].
    + intros (E1 & E2 & -> & _). rewrite elem_of_app, elem_of_cons. auto.
Qed.

(** C1 (amended).  An index can be listed under several pages.  What
    holds is this.  An index is assigned only to a scanned page, from
    page 3 to the last, whose accumulated text holds the text of the
    title; and that is the text of the page with its embedded newlines
    removed as soon as the title holds no newline or no text run holds
    more than one.  The list of a page holds one entry for every match
    on that page that is assigned, in the order of the scan; and the
    matches that are assigned are all the matches without extra pages,
    and with extra pages the matches whose title has matched before:
    every match but the suppressed first one of each title. *)
Theorem find_page_number_page_holds_title pdf T ex :
  let m := find_page_number pdf T ex in
  let E := match_events pdf T in
  (∀ p i, i ∈ indices_on m p →
     3 ≤ p ≤ numPages pdf ∧
     ∃ t pc, T !! i = Some t ∧ pdf !! (p - 1) = Some pc ∧
             includes (page_text pc) t = true ∧
             (at_most_one_newline pdf ∨ count_newlines t = 0 →
              includes (clean_text pc) t = true)) ∧
  (∀ p, indices_on m p =
        map index (filter (fun e => page e = p) (assigned ex E))) ∧
  (∀ e, e ∈ assigned ex E ↔
        ∃ E1 E2, E = E1 ++ e :: E2 ∧
                 ((0 < ex)%Z → title e ∈ map title E1)) ∧
  Forall (sound pdf T) E.
Proof.
  intros m E. split_and!.
  - intros p i (Hp & t & pc & HT & Hpc & Hinc)%find_page_number_sound.
    split; [done|]. exists t, pc. split_and!; [done..|].
    intros [Hnl | Ht].
    + rewrite <- page_text_clean; [done|].
      unfold at_most_one_newline in Hnl. rewrite Forall_forall in Hnl.
      apply Hnl. by eapply list_elem_of_lookup_2.
    + rewrite clean_text_page_text. by apply includes_remove_newlines.
  - intros p. subst m E. by rewrite find_page_number_events, indices_on_assign_pages.
  - intros e. apply elem_of_assigned.
  - apply match_events_sound.
Qed.

Lemma find_page_number_page_holds_title_witness :
  (3 ≤ 4 ≤ numPages repeated ∧
   ∃ t pc, ["Introduction"] !! 0 = Some t ∧ repeated !! (4 - 1) = Some pc ∧
           includes (page_text pc) t = true ∧
           (at_most_one_newline repeated ∨ count_newlines t = 0 →
            includes (clean_text pc) t = true)) ∧
  indices_on (find_page_number repeated ["Introduction"] 0) 3 = [0] ∧
  indices_on (find_page_number repeated ["Introduction"] 0) 4 = [0].
Proof.
  pose proof (find_page_number_page_holds_title repeated ["Introduction"] 0) as H.
  cbv zeta in H. destruct H as (Hsound & Hlist & _).
  split; [apply (Hsound 4 0); vm_compute; left|].
  split; [rewrite (Hlist 3) | rewrite (Hlist 4)]; reflexivity.
Defined.

(** C1 as stated fails: without extra pages the title of [repeated]
    matches on page 3 and again on page 4, and its index is listed
    under both. *)
Lemma find_page_number_index_on_two_pages :
  find_page_number repeated ["Introduction"] 0 = {[ 3 := [0]; 4 := [0] ]} ∧
  ¬ (∀ pdf T ex p q i,
       i ∈ indices_on (find_page_number pdf T ex) p →
       i ∈ indices_on (find_page_number pdf T ex) q → p = q).
Proof.
  split; [by vm_compute|]. intros H.
  assert (3 = 4); [|done].
  apply (H repeated ["Introduction"] 0%Z 3 4 0); vm_compute; left.
Qed.

(** Why the newline removal is qualified above: the single [replace]
    takes the first newline of a run and leaves the second in the
    buffer, so a title that holds a newline can match on a page whose
    text, all newlines removed, does not hold it. *)
Lemma find_page_number_second_newline_kept :
  let t := "a" +:+ newline +:+ "b" in
  let items := [run ("a" +:+ newline +:+ newline +:+ "b")] in
  find_page_number [[]; []; items] [t] 0 = {[ 3 := [0] ]} ∧
  includes (clean_text items) t = false.
Proof. by vm_compute. Qed.




(** C10.  The map is a function of the text of the document, of the
    title list and of [extrapages]: every call starts from the empty
    map and the empty list of seen titles, so two runs on documents with
    the same text runs, the same document in particular, give the same
    map. *)
Theorem find_page_number_deterministic pdf1 pdf2 T ex :
  map (map str) pdf1 = map (map str) pdf2 →
  find_page_number pdf1 T ex = find_page_number pdf2 T ex.
Proof. intros H. unfold find_page_number. by rewrite (scan_text pdf1 pdf2). Qed.

Lemma find_page_number_deterministic_witness :
  map (map str) repeated = map (map str) repeated_eol ∧
  find_page_number repeated toc 1 = find_page_number repeated_eol toc 1.
Proof.
  split; [reflexivity|].
  apply (find_page_number_deterministic repeated repeated_eol toc 1).
  reflexivity.
Defined.

End TitleLocatorFacts.

(** ** The PDF assembler *)

Module AssemblerFacts.
Import Effects Assembler.

Lemma removePage_first (d : PDFDoc) :
  removePage 0 d = match d with
                   | [] => Throw (PdfLibError "removePage")
                   | _ :: rest => Ok rest
                   end.
Proof.
  unfold removePage. destruct d as [|p rest]; case_bool_decide as H;
    simpl in *; try lia; try done.
Qed.

Lemma trim_ok n : ∀ d : PDFDoc,
  n < length d → trim n d = Ok (take 1 d ++ drop (S n) d).
Proof.
  induction n as [|n IH]; intros d Hn; simpl.
  - by rewrite take_drop.
  - destruct d as [|p [|q rest]]; simpl in *; [lia | lia |].
    rewrite drop_0, IH by (simpl; lia). done.
Qed.

Lemma trim_throw n : ∀ (d : PDFDoc) e,
  trim n d = Throw e → e = PdfLibError "removePage" ∧ length d ≤ n.
Proof.
  induction n as [|n IH]; intros d e; simpl; [done|].
  unfold removePage. case_bool_decide as Hd; simpl.
  - intros [-> Hl]%IH. split; [done|].
    rewrite length_app, length_take, length_drop in Hl. lia.
  - intros [= <-]. split; [done|]. lia.
Qed.

Lemma merge_docs_ok (cover body : PDFDoc) ex :
  0 < length body → Z.to_nat ex < length cover →
  merge_docs cover body ex = Ok (take 1 cover ++ drop 1 body).
Proof.
  intros Hb Hc. unfold merge_docs. rewrite removePage_first.
  destruct body as [|b0 rest]; simpl in *; [lia|]. rewrite drop_0.
  assert (Ht : (if (0 <? ex)%Z then trim (Z.to_nat ex) cover else Ok cover)
               = Ok (take 1 cover ++ drop (S (Z.to_nat ex)) cover)).
  { destruct (0 <? ex)%Z eqn:Hex.
    - by apply trim_ok.
    - apply Z.ltb_ge in Hex. replace (Z.to_nat ex) with 0 by lia.
      by rewrite take_drop. }
  rewrite Ht. destruct cover as [|c0 crest]; simpl in *; [lia|].
  done.
Qed.

Lemma merge_docs_inv (cover body : PDFDoc) ex merged :
  merge_docs cover body ex = Ok merged →
  0 < length body ∧ Z.to_nat ex < length cover ∧
  merged = take 1 cover ++ drop 1 body.
Proof.
  intros H.
  destruct (decide (0 < length body)) as [Hb|Hb].
  - destruct (decide (Z.to_nat ex < length cover)) as [Hc|Hc].
    + rewrite merge_docs_ok in H by done. by simplify_eq.
    + exfalso. unfold merge_docs in H. rewrite removePage_first in H.
      destruct body as [|b0 rest]; [done|].
      destruct (0 <? ex)%Z eqn:Hex.
      * apply Z.ltb_lt in Hex.
        destruct (Z.to_nat ex) as [|n] eqn:Hn; [lia|].
        destruct (trim (S n) cover) as [d|e] eqn:Ht; [|done].
        clear -Ht Hc. revert cover d Ht Hc.
        induction n as [|n IH]; intros cover d; simpl;
          unfold removePage; case_bool_decide as Hd; try lia; try done.
        intros Ht Hc. apply IH in Ht; [done|].
        rewrite length_app, length_take, length_drop. lia.
      * destruct cover; simpl in *; [done | lia].
  - exfalso. unfold merge_docs in H. rewrite removePage_first in H.
    destruct body; simpl in *; [done | lia].
Qed.

Lemma merge_docs_never_count_mismatch (cover body : PDFDoc) ex :
  merge_docs cover body ex ≠ Throw count_mismatch.
Proof.
  unfold merge_docs. rewrite removePage_first.
  destruct body as [|b0 rest]; [done|].
  destruct (0 <? ex)%Z.
  - destruct (trim (Z.to_nat ex) cover) as [d|e] eqn:Ht.
    + simpl. destruct (d !! 0); [|done]. unfold insertPage.
      by case_bool_decide.
    + apply trim_throw in Ht as [-> _]. done.
  - simpl. destruct (cover !! 0); [|done]. unfold insertPage.
    by case_bool_decide.
Qed.


Lemma mergePDFs_two env c b ex w :
  mergePDFs env [c; b] ex w =
  match load env c with
  | None => (Throw LoadError, snd (emit (Loaded c) w))
  | Some cover =>
      match load env b with
      | None => (Throw LoadError, snd (emit (Loaded b) (snd (emit (Loaded c) w))))
      | Some body =>
          match merge_docs cover body ex with
          | Throw e => (Throw e, snd (emit (Loaded b) (snd (emit (Loaded c) w))))
          | Ok merged =>
              (Ok (save env merged),
               snd (emit (Saved merged)
                      (snd (emit (Loaded b) (snd (emit (Loaded c) w))))))
          end
      end
  end.
Proof.
  unfold mergePDFs, bind, answer, lift, ret, throw. simpl.
  destruct (load env c); [|done]. simpl.
  destruct (load env b); [|done]. simpl.
  by destruct (merge_docs _ _ _).
Qed.

(** C2 (amended).  The page removed from the body document is its
    page 0, the page that would sit at index 1 once the cover is
    inserted; every other page of the body keeps its index, after the
    cover page, in the merged document. *)
Theorem mergePDFs_removes_first_body_page env c b ex (cover body : PDFDoc) w :
  load env c = Some cover → load env b = Some body →
  0 < length body → Z.to_nat ex < length cover →
  ∃ c0 b0 rest,
    cover !! 0 = Some c0 ∧ body = b0 :: rest ∧
    merge_docs cover body ex = Ok (c0 :: rest) ∧
    (mergePDFs env [c; b] ex w).1 = Ok (save env (c0 :: rest)) ∧
    (∀ i, (c0 :: rest) !! S i = body !! S i).
Proof.
  intros Hc Hb Hlb Hlc.
  rewrite mergePDFs_two, Hc, Hb, merge_docs_ok by done.
  destruct cover as [|c0 crest]; simpl in *; [lia|].
  destruct body as [|b0 rest]; simpl in *; [lia|].
  exists c0, b0, rest. by rewrite drop_0.
Qed.

Lemma mergePDFs_removes_first_body_page_witness :
  ∃ c0 b0 rest,
    ["cover"; "overflow"] !! 0 = Some c0 ∧ ["blank"; "intro"; "scope"] = b0 :: rest ∧
    merge_docs ["cover"; "overflow"] ["blank"; "intro"; "scope"] 1 = Ok (c0 :: rest) ∧
    (mergePDFs Demo.env ["cover overflow"; "blank intro scope"] 1
       (Demo.world Dom.blank)).1 = Ok (save Demo.env (c0 :: rest)) ∧
    (∀ i, (c0 :: rest) !! S i = ["blank"; "intro"; "scope"] !! S i).
Proof.
  apply (mergePDFs_removes_first_body_page Demo.env "cover overflow"
           "blank intro scope" 1 ["cover"; "overflow"] ["blank"; "intro"; "scope"]
           (Demo.world Dom.blank));
    [reflexivity | reflexivity | simpl; lia | simpl; lia].
Defined.

(** C2 as stated fails: the page at index 1 of the body is kept, the
    page at index 0 is the one removed. *)
Lemma merge_docs_keeps_body_page_1 :
  merge_docs ["cover"] ["b0"; "b1"; "b2"] 0 = Ok ["cover"; "b1"; "b2"] ∧
  ¬ (∀ (cover body : PDFDoc) ex merged,
       merge_docs cover body ex = Ok merged →
       ∃ c0, merged = c0 :: take 1 body ++ drop 2 body).
Proof.
  split; [done|]. intros H.
  destruct (H ["cover"] ["b0"; "b1"; "b2"] 0%Z ["cover"; "b1"; "b2"] eq_refl)
    as [c0 Hc0].
  discriminate Hc0.
Qed.

(** C3 (amended).  The extra pages are trimmed from the cover document,
    of which only page 0 is copied: the merged document has the page
    count of the body document minus 1 plus 1, and its page 0 is page 0
    of the cover document, before and after trimming. *)
Theorem mergePDFs_page_count env c b ex (cover body : PDFDoc) w :
  load env c = Some cover → load env b = Some body →
  0 < length body → Z.to_nat ex < length cover →
  ∃ merged trimmed,
    (if (0 <? ex)%Z then trim (Z.to_nat ex) cover else Ok cover) = Ok trimmed ∧
    length trimmed = length cover - Z.to_nat ex ∧
    mergePDFs env [c; b] ex w =
      (Ok (save env merged),
       {| instance := instance w; page1 := page1 w; page2 := page2 w;
          trace := trace w ++ [Loaded c; Loaded b; Saved merged] |}) ∧
    length merged = length body - 1 + 1 ∧
    is_Some (merged !! 0) ∧
    merged !! 0 = trimmed !! 0 ∧ trimmed !! 0 = cover !! 0.
Proof.
  intros Hc Hb Hlb Hlc.
  exists (take 1 cover ++ drop 1 body),
         (take 1 cover ++ drop (S (Z.to_nat ex)) cover).
  assert (Ht : (if (0 <? ex)%Z then trim (Z.to_nat ex) cover else Ok cover)
               = Ok (take 1 cover ++ drop (S (Z.to_nat ex)) cover)).
  { destruct (0 <? ex)%Z eqn:Hex.
    - by apply trim_ok.
    - apply Z.ltb_ge in Hex. replace (Z.to_nat ex) with 0 by lia.
      by rewrite take_drop. }
  split; [done|].
  rewrite mergePDFs_two, Hc, Hb, merge_docs_ok by done.
  destruct cover as [|c0 crest]; simpl in *; [lia|].
  destruct body as [|b0 rest]; simpl in *; [lia|].
  rewrite !drop_0, <- !app_assoc. simpl.
  split_and!; try done; [rewrite length_drop|]; lia.
Qed.

Lemma mergePDFs_page_count_witness :
  ∃ merged trimmed,
    trim 1 ["cover"; "overflow"] = Ok trimmed ∧
    length trimmed = 2 - 1 ∧
    mergePDFs Demo.env ["cover overflow"; "blank intro scope"] 1 (Demo.world Dom.blank) =
      (Ok (save Demo.env merged),
       {| instance := false; page1 := Dom.blank; page2 := Dom.blank;
          trace := [Loaded "cover overflow"; Loaded "blank intro scope";
                    Saved merged] |}) ∧
    length merged = 3 - 1 + 1 ∧
    is_Some (merged !! 0) ∧
    merged !! 0 = trimmed !! 0 ∧ trimmed !! 0 = Some "cover".
Proof.
  apply (mergePDFs_page_count Demo.env "cover overflow" "blank intro scope" 1
           ["cover"; "overflow"] ["blank"; "intro"; "scope"] (Demo.world Dom.blank));
    [reflexivity | reflexivity | simpl; lia | simpl; lia].
Defined.

(** C3 as stated fails: with one extra page and a body of three pages
    the merged document has three pages, not two. *)
Lemma mergePDFs_count_ignores_trimmed_pages :
  mergePDFs Demo.env ["cover overflow"; "blank intro scope"] 1 (Demo.world Dom.blank) =
    (Ok (save Demo.env ["cover"; "intro"; "scope"]),
     {| instance := false; page1 := Dom.blank; page2 := Dom.blank;
        trace := [Loaded "cover overflow"; Loaded "blank intro scope";
                  Saved ["cover"; "intro"; "scope"]] |}) ∧
  ¬ (∀ (cover body : PDFDoc) ex merged,
       merge_docs cover body ex = Ok merged →
       (Z.of_nat (length merged) = Z.of_nat (length body) - 1 - ex + 1)%Z).
Proof.
  split; [by vm_compute|]. intros H.
  specialize (H ["cover"; "overflow"] ["blank"; "intro"; "scope"] 1%Z
                ["cover"; "intro"; "scope"] eq_refl).
  simpl in H. lia.
Qed.

(** C6.  With a number of buffers other than two [mergePDFs] throws the
    count-mismatch error in the world it was called in, no document
    loaded; with two buffers that error is not the outcome. *)
Theorem mergePDFs_count_check env bufs ex w :
  (length bufs ≠ 2 → mergePDFs env bufs ex w = (Throw count_mismatch, w)) ∧
  (length bufs = 2 → (mergePDFs env bufs ex w).1 ≠ Throw count_mismatch).
Proof.
  split.
  - intros H. unfold mergePDFs.
    destruct (length bufs =? 2) eqn:E; [apply Nat.eqb_eq in E; lia | done].
  - intros H. destruct bufs as [|c [|b [|x bufs]]]; simplify_eq/=.
    rewrite mergePDFs_two.
    destruct (load env c); [|done]. destruct (load env b); [|done].
    destruct (merge_docs _ _ _) eqn:E; [done|]. simpl. intros [= ->].
    by apply merge_docs_never_count_mismatch in E.
Qed.

Lemma mergePDFs_count_check_witness :
  (mergePDFs Demo.env ["cover"] 0 (Demo.world Dom.blank)
     = (Throw count_mismatch, Demo.world Dom.blank) ∧
   mergePDFs Demo.env ["cover"; "blank intro"; "extra"] 0 (Demo.world Dom.blank)
     = (Throw count_mismatch, Demo.world Dom.blank)) ∧
  (mergePDFs Demo.env ["cover"; "blank intro"] 0 (Demo.world Dom.blank)).1
     ≠ Throw count_mismatch.
Proof.
  split; [split|].
  - apply (proj1 (mergePDFs_count_check Demo.env ["cover"] 0 (Demo.world Dom.blank))).
    simpl. lia.
  - apply (proj1 (mergePDFs_count_check Demo.env ["cover"; "blank intro"; "extra"] 0
                    (Demo.world Dom.blank))).
    simpl. lia.
  - apply (proj2 (mergePDFs_count_check Demo.env ["cover"; "blank intro"] 0
                    (Demo.world Dom.blank))).
    reflexivity.
Defined.


End AssemblerFacts.

(** ** The document *)

Module DomFacts.
Import Dom.

Lemma Node_ind' (P : Node → Prop) :
  (∀ s, P (Text s)) →
  (∀ a cs, Forall P cs → P (Element a cs)) →
  ∀ n, P n.
Proof.
  intros HT HE. fix IH 1. intros [s|a cs]; [apply HT|].
  apply HE. induction cs as [|c cs IHcs]; constructor; [apply IH | exact IHcs].
Qed.

Lemma find_first_element sel a cs :
  find_first sel (Element a cs) =
  if sel a then Some (Element a cs) else find_among sel cs.
Proof.
  simpl. destruct (sel a); [done|].
  induction cs as [|c cs IH]; simpl; [done|]. by rewrite IH.
Qed.

Lemma modify_first_element sel f a cs :
  modify_first sel f (Element a cs) =
  if sel a then Some (f (Element a cs)) else Element a <$> modify_among sel f cs.
Proof.
  simpl. destruct (sel a); [done|]. f_equal.
  induction cs as [|c cs IH]; simpl; [done|]. by rewrite IH.
Qed.

(** A script that leaves what the selector reads untouched does not
    change which element the selector finds. *)
Lemma find_first_map_elements sel f :
  (∀ a, sel (f a) = sel a) →
  ∀ n, find_first sel (map_elements f n) = map_elements f <$> find_first sel n.
Proof.
  intros Hsel. induction n as [s|a cs IH] using Node_ind'; [done|].
  change (map_elements f (Element a cs))
    with (Element (f a) (map (map_elements f) cs)).
  rewrite !find_first_element, Hsel. destruct (sel a); [done|].
  induction IH as [|c cs Hc _ IHcs]; simpl; [done|].
  rewrite Hc. destruct (find_first sel c); [done|]. apply IHcs.
Qed.

Lemma modify_first_None sel f n :
  find_first sel n = None → modify_first sel f n = None.
Proof.
  induction n as [s|a cs IH] using Node_ind'; [done|].
  rewrite find_first_element, modify_first_element.
  destruct (sel a); [done|]. intros H.
  assert (modify_among sel f cs = None) as ->; [|done].
  induction IH as [|c cs Hc _ IHcs]; simpl in *; [done|].
  destruct (find_first sel c); [done|]. rewrite Hc by done.
  by rewrite IHcs.
Qed.

(** Writing the text of the first matching element: the element is
    still the first match, and its text is the one written. *)
Lemma modify_first_set_textContent sel s n e :
  find_first sel n = Some e →
  ∃ n', modify_first sel (set_textContent s) n = Some n' ∧
        find_first sel n' = Some (set_textContent s e).
Proof.
  revert e. induction n as [t|a cs IH] using Node_ind'; intros e; [done|].
  rewrite find_first_element, modify_first_element.
  destruct (sel a) eqn:Ha.
  - intros [= <-]. eexists. split; [done|]. simpl. by rewrite Ha.
  - intros H.
    assert (∃ cs', modify_among sel (set_textContent s) cs = Some cs' ∧
                   find_among sel cs' = Some (set_textContent s e))
      as (cs' & -> & Hcs').
    { induction IH as [|c cs Hc _ IHcs]; simpl in *; [done|].
      destruct (find_first sel c) as [r|] eqn:Hr.
      - simplify_eq. destruct (Hc e eq_refl) as (c' & -> & Hc').
        eexists. split; [done|]. simpl. by rewrite Hc'.
      - rewrite (modify_first_None _ _ _ Hr).
        destruct (IHcs H) as (cs' & -> & Hcs').
        eexists. split; [done|]. simpl. by rewrite Hr. }
    eexists. split; [done|]. by rewrite find_first_element, Ha.
Qed.

(** Writing a text removes elements and adds none: a selector that
    found nothing finds nothing afterwards. *)
Lemma find_first_None_set_textContent sel2 sel s n n' :
  find_first sel2 n = None →
  modify_first sel (set_textContent s) n = Some n' →
  find_first sel2 n' = None.
Proof.
  revert n'. induction n as [t|a cs IH] using Node_ind'; intros n'; [done|].
  rewrite find_first_element, modify_first_element.
  destruct (sel2 a) eqn:Ha2; [done|]. intros Hnone.
  destruct (sel a).
  - intros [= <-]. simpl. by rewrite Ha2.
  - destruct (modify_among sel (set_textContent s) cs) as [cs'|] eqn:Hm;
      [|done].
    intros [= <-]. rewrite find_first_element, Ha2.
    clear Ha2. revert cs' Hm.
    induction IH as [|c cs Hc _ IHcs]; intros cs'; simpl in *; [done|].
    destruct (find_first sel2 c) eqn:Hc2; [done|].
    destruct (modify_first sel (set_textContent s) c) as [c'|] eqn:Hmc.
    + intros [= <-]. simpl. by rewrite (Hc c' eq_refl eq_refl).
    + destruct (modify_among sel (set_textContent s) cs) as [cs''|]; [|done].
      intros [= <-]. simpl. rewrite Hc2. by apply IHcs.
Qed.

Lemma textContent_set_textContent s a cs :
  textContent (set_textContent s (Element a cs)) = s.
Proof.
  simpl. induction s as [|c s IH]; [done|].
  change (String c s +:+ EmptyString) with (String c (s +:+ EmptyString)).
  by rewrite IH.
Qed.

Lemma find_first_is_element sel n e :
  find_first sel n = Some e → ∃ a cs, e = Element a cs ∧ sel a = true.
Proof.
  revert e. induction n as [t|a cs IH] using Node_ind'; intros e; [done|].
  rewrite find_first_element. destruct (sel a) eqn:Ha.
  - intros [= <-]. eauto.
  - induction IH as [|c cs Hc _ IHcs]; simpl; [done|].
    destruct (find_first sel c) eqn:Hr; [|done].
    intros [= <-]. by apply Hc.
Qed.

End DomFacts.

(** ** The orchestrator *)

Module PipelineFacts.
Import JsString Dom TitleLocator Effects Assembler Injector Pipeline DomFacts.
Open Scope js_scope.

Lemma generatePDF_split env w :
  generatePDF env w =
  match upto_probe env w with
  | (Ok ex, w1) => (update_numbers env ex;; final_passes env ex) w1
  | (Throw e, w1) => (Throw e, w1)
  end.
Proof.
  unfold generatePDF, upto_probe, bind.
  destruct (emit (Enter "generatePDF") w) as [[[]|e] w0]; [|done].
  destruct (prepare env w0) as [[[]|e] w0']; [|done].
  by destruct (probe_extrapages env w0') as [[ex|e] w1].
Qed.

Lemma has_id_hide i a : has_id i (hide_other_sections a) = has_id i a.
Proof. unfold hide_other_sections. by destruct (_ && _). Qed.

Lemma has_id_show i a : has_id i (show_sections a) = has_id i a.
Proof. unfold show_sections. by destruct (has_tag _ _). Qed.

Lemma has_class_hide c a : has_class c (hide_other_sections a) = has_class c a.
Proof. unfold hide_other_sections. by destruct (_ && _). Qed.

Lemma has_class_show c a : has_class c (show_sections a) = has_class c a.
Proof. unfold show_sections. by destruct (has_tag _ _). Qed.

Lemma upto_probe_page1 env w ex w1 :
  upto_probe env w = (Ok ex, w1) →
  page1 w1 = map_elements show_sections (map_elements hide_other_sections (page1 w)).
Proof.
  cbv [upto_probe prepare getInstance probe_extrapages try_catch render
    parse getFirstSection bind answer log emit set_page get_page ret throw
    get_instance set_instance].
  simpl. destruct (instance w); simpl.
  - destruct (pdf env _ _); simpl; [|done].
    destruct (getDocument env _); simpl; [|done]. by intros [= <- <-].
  - destruct (launch env); simpl; [|done].
    destruct (pdf env _ _); simpl; [|done].
    destruct (getDocument env _); simpl; [|done]. by intros [= <- <-].
Qed.


Lemma updatePageCount_missing n w :
  find_first (has_class "totalPages") (page1 w) = None →
  updatePageCount Page1 n w =
    (Throw (SelectorError ".totalPages"),
     logged w [Log "Mise à jour du total des pages."]).
Proof.
  intros H. unfold updatePageCount, bind, log, emit, get_page, throw. simpl.
  by rewrite (modify_first_None _ _ _ H).
Qed.

Lemma updateTableOfContent_missing pdf ex w :
  find_first (has_id "table-of-content") (page1 w) = None →
  updateTableOfContent Page1 pdf ex w =
    (Ok tt, logged w [Log "Mise à jour du sommaire.";
                      Log "Le sommaire n'a pas été trouvé !"]).
Proof.
  intros H. unfold updateTableOfContent, bind, log, emit, get_page. simpl.
  rewrite H. unfold logged. simpl. by rewrite <- app_assoc.
Qed.

(** C9.  Without an element of class [totalPages], [updatePageCount]
    rejects with the selector error, and [generatePDF], once the probe
    and the preliminary render have succeeded, reports the error and
    rethrows it: the run ends there, the table of content untouched. *)
Theorem missing_totalPages_is_fatal :
  (∀ n w,
     find_first (has_class "totalPages") (page1 w) = None →
     updatePageCount Page1 n w =
       (Throw (SelectorError ".totalPages"),
        logged w [Log "Mise à jour du total des pages."])) ∧
  (∀ env w ex w1 b pdf,
     find_first (has_class "totalPages") (page1 w) = None →
     upto_probe env w = (Ok ex, w1) →
     Effects.pdf env (page1 w1) options0 = Some b →
     getDocument env b = Some pdf →
     generatePDF env w =
       (Throw (SelectorError ".totalPages"),
        logged w1
          [ Log "Generating preliminary PDF for page number analysis...";
            Rendered Page1 options0;
            Log "Preliminary PDF generated in memory.";
            Log "Parsing preliminary PDF with pdfjs...";
            Parsed b;
            Log ("Preliminary PDF parsed. Pages count: " +:+ pretty (numPages pdf));
            Log "Mise à jour du total des pages.";
            ConsoleError "Error updating table of content:" ])).
Proof.
  split; [apply updatePageCount_missing|].
  intros env w ex w1 b pdf Hnone Hprobe Hrender Hparse.
  rewrite generatePDF_split, Hprobe.
  assert (H1 : find_first (has_class "totalPages") (page1 w1) = None).
  { rewrite (upto_probe_page1 _ _ _ _ Hprobe).
    rewrite !find_first_map_elements, Hnone;
      first [done | apply has_class_show | apply has_class_hide]. }
  cbv [bind update_numbers try_catch render parse answer log emit get_page
       ret throw]. simpl.
  rewrite Hrender, Hparse.
  rewrite updatePageCount_missing by done.
  unfold logged. simpl. by rewrite <- !app_assoc.
Qed.

(** C7.  Without a table-of-content container [updateTableOfContent]
    logs twice and returns, the document unchanged.  In [generatePDF] the
    page-count field has been written before, the table of content is
    still absent, and the run goes on with the final passes. *)
Theorem missing_toc_is_not_fatal :
  (∀ pdf ex w,
     find_first (has_id "table-of-content") (page1 w) = None →
     updateTableOfContent Page1 pdf ex w =
       (Ok tt, logged w [Log "Mise à jour du sommaire.";
                         Log "Le sommaire n'a pas été trouvé !"])) ∧
  (∀ env w ex w1 b pdf,
     find_first (has_id "table-of-content") (page1 w) = None →
     is_Some (find_first (has_class "totalPages") (page1 w)) →
     upto_probe env w = (Ok ex, w1) →
     Effects.pdf env (page1 w1) options0 = Some b →
     getDocument env b = Some pdf →
     ∃ d element,
       modify_first (has_class "totalPages")
         (set_textContent (pretty (numPages pdf))) (page1 w1) = Some d ∧
       find_first (has_class "totalPages") d = Some element ∧
       textContent element = pretty (numPages pdf) ∧
       find_first (has_id "table-of-content") d = None ∧
       let w2 :=
         {| instance := instance w1; page1 := d; page2 := page2 w1;
            trace := trace w1 ++
              [ Log "Generating preliminary PDF for page number analysis...";
                Rendered Page1 options0;
                Log "Preliminary PDF generated in memory.";
                Log "Parsing preliminary PDF with pdfjs...";
                Parsed b;
                Log ("Preliminary PDF parsed. Pages count: " +:+ pretty (numPages pdf));
                Log "Mise à jour du total des pages.";
                Log ("Fin de la mise à jour du total des pages. "
                     +:+ pretty (numPages pdf));
                Log "Mise à jour du sommaire.";
                Log "Le sommaire n'a pas été trouvé !" ] |} in
       update_numbers env ex w1 = (Ok tt, w2) ∧
       generatePDF env w = final_passes env ex w2).
Proof.
  split; [apply updateTableOfContent_missing|].
  intros env w ex w1 b pdf Hnone [e0 Hsome] Hprobe Hrender Hparse.
  pose proof (upto_probe_page1 _ _ _ _ Hprobe) as Hp1.
  assert (H1 : find_first (has_id "table-of-content") (page1 w1) = None).
  { rewrite Hp1, !find_first_map_elements, Hnone;
      first [done | apply has_id_show | apply has_id_hide]. }
  assert (H2 : ∃ e1, find_first (has_class "totalPages") (page1 w1) = Some e1).
  { rewrite Hp1, !find_first_map_elements, Hsome;
      first [by eexists | apply has_class_show | apply has_class_hide]. }
  destruct H2 as [e1 He1].
  destruct (modify_first_set_textContent _ (pretty (numPages pdf)) _ _ He1)
    as (d & Hd & Hfind).
  destruct (find_first_is_element _ _ _ He1) as (a & cs & -> & _).
  exists d, (set_textContent (pretty (numPages pdf)) (Element a cs)).
  assert (Htoc : find_first (has_id "table-of-content") d = None)
    by (by eapply find_first_None_set_textContent).
  split_and!; [done | done | apply textContent_set_textContent | done |].
  intros w2.
  assert (Hupd : update_numbers env ex w1 = (Ok tt, w2)).
  { cbv [bind update_numbers try_catch render parse answer log emit get_page
         ret throw]. simpl.
    rewrite Hrender, Hparse.
    cbv [updatePageCount bind log emit get_page set_page throw]. simpl.
    rewrite Hd. simpl. rewrite Hfind.
    rewrite updateTableOfContent_missing by done.
    rewrite textContent_set_textContent.
    unfold logged, w2. simpl. by rewrite <- !app_assoc. }
  split; [done|].
  rewrite generatePDF_split, Hprobe. unfold bind at 1. by rewrite Hupd.
Qed.

Lemma missing_totalPages_is_fatal_witness :
  (generatePDF Demo.env (Demo.world Demo.report_without_total)).1
    = Throw (SelectorError ".totalPages").
Proof.
  rewrite (proj2 missing_totalPages_is_fatal Demo.env
             (Demo.world Demo.report_without_total) 0%Z Demo.probed_without_total
             "cover contents intro scope"
             [[run "cover"]; [run "contents"]; [run "intro"]; [run "scope"]]
             eq_refl eq_refl eq_refl eq_refl).
  reflexivity.
Defined.

Lemma missing_toc_is_not_fatal_witness :
  ∃ d element,
    find_first (has_class "totalPages") d = Some element ∧
    textContent element = "4" ∧
    find_first (has_id "table-of-content") d = None ∧
    (generatePDF Demo.env (Demo.world Demo.report_without_toc)).1
      = Ok "cover intro scope ".
Proof.
  destruct (proj2 missing_toc_is_not_fatal Demo.env
              (Demo.world Demo.report_without_toc) 0%Z Demo.probed_without_toc
              "cover contents intro scope"
              [[run "cover"]; [run "contents"]; [run "intro"]; [run "scope"]]
              eq_refl (mk_is_Some _ _ eq_refl) eq_refl eq_refl eq_refl)
    as (d & element & _ & Hfind & Htext & Htoc & _ & Hgen).
  exists d, element. split_and!; [exact Hfind | exact Htext | exact Htoc |].
  reflexivity.
Defined.


End PipelineFacts.

(** ** The trace *)

Module TraceFacts.
Import JsString Dom TitleLocator Effects Assembler Injector Pipeline.
Open Scope js_scope.

Lemma grows_ret {A} (a : A) : grows (ret a).
Proof. intros w. exists []. by rewrite app_nil_r. Qed.

Lemma grows_throw {A} e : grows (@throw A e).
Proof. intros w. exists []. by rewrite app_nil_r. Qed.

Lemma grows_emit e : grows (emit e).
Proof. intros w. by exists [e]. Qed.

Lemma grows_get_page p : grows (get_page p).
Proof. intros w. exists []. by rewrite app_nil_r. Qed.

Lemma grows_set_page p d : grows (set_page p d).
Proof. intros w. exists []. destruct p; simpl; by rewrite app_nil_r. Qed.

Lemma grows_get_instance : grows get_instance.
Proof. intros w. exists []. by rewrite app_nil_r. Qed.

Lemma grows_set_instance : grows set_instance.
Proof. intros w. exists []. by rewrite app_nil_r. Qed.

Lemma grows_lift {A} (o : Outcome A) : grows (lift o).
Proof. intros w. exists []. by rewrite app_nil_r. Qed.

Lemma grows_answer {A} e (o : option A) : grows (answer e o).
Proof. destruct o; [apply grows_ret | apply grows_throw]. Qed.

Lemma grows_bind {A B} (c : M A) (k : A → M B) :
  grows c → (∀ a, grows (k a)) → grows (bind c k).
Proof.
  intros Hc Hk w. unfold bind. destruct (Hc w) as [t Ht].
  destruct (c w) as [[a|e] w']; simpl in *.
  - destruct (Hk a w') as [t' Ht']. exists (t ++ t').
    by rewrite Ht', Ht, app_assoc.
  - by exists t.
Qed.

Lemma grows_try_catch {A} (c : M A) (h : Exn → M A) :
  grows c → (∀ e, grows (h e)) → grows (try_catch c h).
Proof.
  intros Hc Hh w. unfold try_catch. destruct (Hc w) as [t Ht].
  destruct (c w) as [[a|e] w']; simpl in *.
  - by exists t.
  - destruct (Hh e w') as [t' Ht']. exists (t ++ t').
    by rewrite Ht', Ht, app_assoc.
Qed.

Create HintDb grows.
#[export] Hint Resolve grows_get_instance grows_set_instance grows_get_page
  grows_set_page grows_lift grows_answer : grows.

(** The trace lemma for a computation, found by its shape. *)
Ltac grows :=
  repeat lazymatch goal with
    | |- grows (bind _ _) => apply grows_bind; [|intros ?]
    | |- grows (try_catch _ _) => apply grows_try_catch; [|intros ?]
    | |- grows (ret _) => apply grows_ret
    | |- grows (throw _) => apply grows_throw
    | |- grows (emit _) => apply grows_emit
    | |- grows (log _) => apply grows_emit
    | |- grows (match ?x with _ => _ end) => destruct x
    | |- grows _ => solve [auto with grows]
    end.

Lemma grows_getInstance env : grows (getInstance env).
Proof. unfold getInstance. grows. Qed.
#[export] Hint Resolve grows_getInstance : grows.

Lemma grows_generateHTML env s : grows (generateHTML env s).
Proof. unfold generateHTML. grows. Qed.

Lemma grows_mergePDFs env bufs ex : grows (mergePDFs env bufs ex).
Proof. unfold mergePDFs. grows. Qed.

Lemma grows_updatePageCount p n : grows (updatePageCount p n).
Proof. unfold updatePageCount. grows. Qed.

Lemma grows_updateTableOfContent p pdf ex : grows (updateTableOfContent p pdf ex).
Proof. unfold updateTableOfContent, inject. grows. Qed.
#[export] Hint Resolve grows_mergePDFs grows_updatePageCount
  grows_updateTableOfContent : grows.

Lemma grows_getFirstSection p : grows (getFirstSection p).
Proof. unfold getFirstSection. grows. Qed.

Lemma grows_render env p o : grows (render env p o).
Proof. unfold render. grows. Qed.

Lemma grows_parse env b : grows (parse env b).
Proof. unfold parse. grows. Qed.
#[export] Hint Resolve grows_getFirstSection grows_render grows_parse : grows.

Lemma grows_generatePDF env : grows (generatePDF env).
Proof.
  unfold generatePDF, prepare, probe_extrapages, update_numbers, final_passes,
    render_cover, render_body, getAllSectionsExceptFirst, getHeader, getFooter.
  grows.
Qed.

End TraceFacts.

(** ** The HTTP front end *)

Module AppFacts.
Import Dom Effects Assembler Pipeline App TraceFacts.
Open Scope js_scope.

Lemma respond_status {A} type send (work : M A) w :
  status (respond type send work w).1 = 200 ∨
  status (respond type send work w).1 = 500.
Proof. unfold respond. destruct (work w) as [[a|e] w']; simpl; auto. Qed.

(** Once [generateHTML] is entered, whatever follows keeps the event. *)
Lemma entered_generateHTML {A} env text (k : PageId → M A) w :
  (∀ p, grows (k p)) →
  Enter "generateHTML" ∈ trace (bind (generateHTML env text) k w).2.
Proof.
  intros Hk.
  set (rest := (getInstance env;; log "Chrome version:";;
                set_page Page1 (parseHTML env text);; ret Page1)%js).
  set (w0 := {| instance := instance w; page1 := page1 w; page2 := page2 w;
                trace := trace w ++ [Enter "generateHTML"] |}).
  change (Enter "generateHTML" ∈ trace (bind rest k w0).2).
  assert (Hg : grows (bind rest k)).
  { apply grows_bind; [|done]. unfold rest. grows. }
  destruct (Hg w0) as [t ->]. simpl. set_solver.
Qed.

(** An undefined body is answered with status 400, nothing rendered. *)
Lemma undefined_body_is_rejected env w :
  pdf_visualiser env bodiless_post w = (bad_request, w) ∧
  html_visualiser env bodiless_post w = (bad_request, w).
Proof. done. Qed.

(** C8 fails at a body of length zero: the [Buffer] is truthy, so both
    handlers call [generateHTML] and answer with a status other than
    400. *)
Theorem empty_buffer_body_is_rendered env w :
  (status (pdf_visualiser env empty_post w).1 ≠ 400 ∧
   Enter "generateHTML" ∈ trace (pdf_visualiser env empty_post w).2) ∧
  (status (html_visualiser env empty_post w).1 ≠ 400 ∧
   Enter "generateHTML" ∈ trace (html_visualiser env empty_post w).2).
Proof.
  unfold pdf_visualiser, html_visualiser. simpl.
  split; split.
  - destruct (respond_status "application/pdf" PdfPayload
                (let* text := lift (Ok EmptyString) in
                 generateHTML env text;; generatePDF env) w) as [-> | ->]; lia.
  - unfold respond, bind at 1, lift.
    pose proof (entered_generateHTML env EmptyString (fun _ => generatePDF env) w
                  (fun _ => grows_generatePDF env)) as H.
    destruct (bind (generateHTML env EmptyString) (fun _ => generatePDF env) w)
      as [[a|e] w']; simpl in *; [done|].
    rewrite elem_of_app. by left.
  - destruct (respond_status "text/html" PagePayload
                (let* text := lift (Ok EmptyString) in
                 let* html := generateHTML env text in get_page html) w)
      as [-> | ->]; lia.
  - unfold respond, bind at 1, lift.
    pose proof (entered_generateHTML env EmptyString get_page w
                  grows_get_page) as H.
    destruct (bind (generateHTML env EmptyString) get_page w)
      as [[a|e] w']; simpl in *; [done|].
    rewrite elem_of_app. by left.
Qed.

(** On the example collaborators the empty POST gets the blank page
    back with status 200 from one endpoint, and status 500 from the
    other, where the blank page has no page-count field. *)
Lemma empty_post_is_answered_200 :
  html_visualiser Demo.env empty_post (Demo.world blank) =
    ({| status := 200; contentType := Some "text/html";
        payload := PagePayload blank |},
     {| instance := true; page1 := blank; page2 := blank;
        trace := [ Enter "generateHTML";
                   Log "Launching Puppeteer for PDF generation...";
                   Launched;
                   Log "Puppeteer launched successfully.";
                   Log "Chrome version:" ] |}) ∧
  (pdf_visualiser Demo.env empty_post (Demo.world blank)).1 =
    {| status := 500; contentType := Some "application/pdf";
       payload := TextPayload "Error generating PDF" |}.
Proof. split; by vm_compute. Qed.

End AppFacts.

(** ** The matches of the title locator *)

Module MatchFacts.
Import JsString TitleLocator TitleLocatorFacts.
#[local] Arguments String.append : simpl nomatch.

(** X1.  The map depends on [extrapages] only through the test
    [extrapages > 0]: two counts on the same side of it give the same
    map. *)
Theorem find_page_number_extrapages_sign pdf T ex1 ex2 :
  (0 <? ex1)%Z = (0 <? ex2)%Z →
  find_page_number pdf T ex1 = find_page_number pdf T ex2.
Proof.
  intros H. rewrite !find_page_number_events. unfold assigned. by rewrite H.
Qed.

Lemma find_page_number_extrapages_sign_witness :
  (0 <? 1)%Z = (0 <? 5)%Z ∧
  find_page_number (scenarioB_contents [] []) toc 1 =
  find_page_number (scenarioB_contents [] []) toc 5.
Proof.
  split; [reflexivity|].
  apply (find_page_number_extrapages_sign (scenarioB_contents [] []) toc 1 5).
  reflexivity.
Defined.

(** The events of a scan only grow, page by page. *)
Lemma note_match_events p ms k x :
  ∃ new, events (note_match p ms k x) = events ms ++ new ∧
         Forall (fun e => page e = p ∧ index e = k ∧ title e = x) new ∧
         (new = [] → note_match p ms k x = ms ∧ includes (buffer ms) x = false) ∧
         (buffer (note_match p ms k x) = buffer ms ∨
          buffer (note_match p ms k x) = EmptyString).
Proof.
  unfold note_match. destruct (includes (buffer ms) x) eqn:E; simpl.
  - eexists. split; [done|]. split; [by repeat constructor|]. split; [done|auto].
  - exists []. rewrite app_nil_r. split_and!; auto.
Qed.

Lemma forEach_match_events p T' : ∀ k ms,
  ∃ new, events (forEach_match p k T' ms) = events ms ++ new ∧
         Forall (fun e => page e = p) new ∧
         (new = [] → buffer (forEach_match p k T' ms) = buffer ms ∧
                     ∀ x, x ∈ T' → includes (buffer ms) x = false).
Proof.
  induction T' as [|x T' IH]; intros k ms; simpl.
  - exists []. rewrite app_nil_r. split_and!; [done..|].
    intros _. split; [done|]. by intros x ?%elem_of_nil.
  - destruct (note_match_events p ms k x) as (n1 & E1 & F1 & Z1 & _).
    destruct (IH (S k) (note_match p ms k x)) as (n2 & E2 & F2 & Z2).
    exists (n1 ++ n2). rewrite E2, E1, app_assoc. split; [done|].
    split.
    + apply Forall_app. split; [|done]. eapply Forall_impl; [done|].
      by intros e (? & _).
    + intros [-> ->]%app_eq_nil. destruct (Z1 eq_refl) as [Hms Hx].
      destruct (Z2 eq_refl) as [Hb Hall]. rewrite Hms in Hb, Hall |- *.
      split; [done|]. intros y [->|Hy]%elem_of_cons; auto.
Qed.

Lemma match_items_events T p items : ∀ ms,
  ∃ new, events (match_items T p items ms) = events ms ++ new ∧
         Forall (fun e => page e = p) new ∧
         (new = [] → items ≠ [] →
          ∀ x, x ∈ T → includes (buffer ms +:+ page_text items) x = false).
Proof.
  induction items as [|it items IH]; intros ms; simpl.
  - exists []. rewrite app_nil_r. done.
  - set (ms0 := {| events := events ms;
                   buffer := buffer ms +:+ replace newline EmptyString (str it) |}).
    destruct (forEach_match_events p T 0 ms0) as (n1 & E1 & F1 & Z1).
    destruct (IH (forEach_match p 0 T ms0)) as (n2 & E2 & F2 & Z2).
    exists (n1 ++ n2). rewrite E2, E1, app_assoc. split; [done|].
    split; [by apply Forall_app|].
    intros [-> ->]%app_eq_nil _ x Hx. destruct (Z1 eq_refl) as [Hb Hall].
    destruct items as [|it' items'].
    + simpl. rewrite append_empty_r. by apply Hall.
    + specialize (Z2 eq_refl ltac:(done) x Hx). rewrite Hb in Z2. simpl in Z2.
      by rewrite append_assoc in Z2.
Qed.

Lemma match_pages_events T pages : ∀ q ms,
  ∃ new, events (match_pages T q pages ms) = events ms ++ new.
Proof.
  induction pages as [|pc pages IH]; intros q ms; simpl.
  - exists []. by rewrite app_nil_r.
  - destruct (match_items_events T q pc {| events := events ms; buffer := EmptyString |})
      as (n1 & E1 & _).
    destruct (IH (S q) (match_items T q pc {| events := events ms; buffer := EmptyString |}))
      as (n2 & E2).
    exists (n1 ++ n2). by rewrite E2, E1, app_assoc.
Qed.

Lemma match_pages_finds T pages : ∀ n q ms pc x,
  pages !! n = Some pc → pc ≠ [] → x ∈ T → includes (page_text pc) x = true →
  ∃ e, e ∈ events (match_pages T q pages ms) ∧ page e = q + n.
Proof.
  induction pages as [|pc0 pages IH]; intros n q ms pc x Hn Hne Hx Hinc; [done|].
  simpl. destruct n as [|n]; simplify_eq/=.
  - set (ms0 := {| events := events ms; buffer := EmptyString |}).
    destruct (match_items_events T q pc ms0) as (n1 & E1 & F1 & Z1).
    destruct (match_pages_events T pages (S q) (match_items T q pc ms0)) as (n2 & E2).
    destruct n1 as [|e n1].
    + specialize (Z1 eq_refl Hne x Hx). simpl in Z1. congruence.
    + exists e. rewrite E2, E1. split; [set_solver|].
      apply Forall_cons in F1 as [-> _]. lia.
  - destruct (IH n (S q) (match_items T q pc0 {| events := events ms; buffer := EmptyString |})
                pc x Hn Hne Hx Hinc) as (e & He & Hp).
    exists e. split; [done|]. lia.
Qed.

(** X2.  Without extra pages, a scanned page (page 3 or later) that
    has text runs and whose text holds a title of the list is a key of
    the map: some index is listed under it. *)
Theorem page_holding_a_title_is_a_key pdf T ex p pc i t :
  (ex ≤ 0)%Z → 3 ≤ p → pdf !! (p - 1) = Some pc → pc ≠ [] →
  T !! i = Some t → includes (page_text pc) t = true →
  ∃ j, j ∈ indices_on (find_page_number pdf T ex) p.
Proof.
  intros Hex Hp Hpc Hne HT Hinc.
  destruct (match_pages_finds T (drop 2 pdf) (p - 3) 3
              {| events := []; buffer := EmptyString |} pc t) as (e & He & Hpe).
  - rewrite lookup_drop. by replace (2 + (p - 3)) with (p - 1) by lia.
  - done.
  - by eapply list_elem_of_lookup_2.
  - done.
  - exists (index e). rewrite find_page_number_events. unfold assigned.
    rewrite (proj2 (Z.ltb_ge 0 ex)) by lia.
    apply elem_of_assign_pages. exists e. split; [done|]. split; [lia|done].
Qed.

End MatchFacts.

(** ** Titles that repeat, titles that are empty *)

Module TitleFacts.
Import JsString TitleLocator TitleLocatorFacts MatchFacts.
#[local] Arguments String.append : simpl nomatch.

Lemma includes_empty_l t : t ≠ EmptyString → includes EmptyString t = false.
Proof. destruct t; [done|]. by intros _. Qed.

Lemma includes_empty_r s : includes s EmptyString = true.
Proof. by destruct s. Qed.

(** A title that stands twice in the list. *)
Section duplicate.
Context (T : list string) (i j : nat) (t : string).
Hypothesis Hi : T !! i = Some t.
Hypothesis Hj : T !! j = Some t.
Hypothesis Hij : i < j.
Hypothesis Ht : t ≠ EmptyString.

Lemma forEach_match_duplicate p T' : ∀ k ms,
  (∀ n x, T' !! n = Some x → T !! (k + n) = Some x) →
  Forall (fun e => index e ≠ j) (events ms) →
  (i < k → includes (buffer ms) t = false) →
  Forall (fun e => index e ≠ j) (events (forEach_match p k T' ms)).
Proof.
  induction T' as [|x T' IH]; intros k ms HT Hev Hbuf; simpl; [done|].
  assert (Hx : T !! k = Some x).
  { specialize (HT 0 x eq_refl). by rewrite Nat.add_0_r in HT. }
  apply IH.
  - intros n y Hn. replace (S k + n) with (k + S n) by lia. by apply HT.
  - unfold note_match. destruct (includes (buffer ms) x) eqn:E; [|done].
    simpl. apply Forall_app. split; [done|]. apply Forall_singleton. simpl.
    intros ->. assert (x = t) as -> by congruence.
    rewrite Hbuf in E by done. done.
  - intros Hk. unfold note_match.
    destruct (includes (buffer ms) x) eqn:E; simpl.
    + by apply includes_empty_l.
    + destruct (decide (k = i)) as [->|]; [congruence|]. apply Hbuf. lia.
Qed.

Lemma match_items_duplicate p items : ∀ ms,
  Forall (fun e => index e ≠ j) (events ms) →
  Forall (fun e => index e ≠ j) (events (match_items T p items ms)).
Proof.
  induction items as [|it items IH]; intros ms Hev; simpl; [done|].
  apply IH, forEach_match_duplicate; [done | done | lia].
Qed.

Lemma match_pages_duplicate pages : ∀ p ms,
  Forall (fun e => index e ≠ j) (events ms) →
  Forall (fun e => index e ≠ j) (events (match_pages T p pages ms)).
Proof.
  induction pages as [|pc pages IH]; intros p ms Hev; simpl; [done|].
  by apply IH, match_items_duplicate.
Qed.
End duplicate.

(** X3.  When a title text that is not empty stands twice in the
    list, the index of its second entry is listed under no page: the
    first entry takes every match and empties the accumulated text. *)
Theorem later_duplicate_title_is_never_numbered pdf T ex i j t p :
  T !! i = Some t → T !! j = Some t → i < j → t ≠ EmptyString →
  j ∉ indices_on (find_page_number pdf T ex) p.
Proof.
  intros Hi Hj Hij Ht. rewrite find_page_number_events.
  intros (e & He%assigned_subseteq & _ & Hidx)%elem_of_assign_pages.
  pose proof (match_pages_duplicate T i j t Hi Hj Hij Ht (drop 2 pdf) 3
                {| events := []; buffer := EmptyString |} (Forall_nil_2 _)) as H.
  rewrite Forall_forall in H. by apply (H e He).
Qed.

(** A key of the map has at least one index. *)
Lemma assign_pages_nonempty E p l : assign_pages E !! p = Some l → l ≠ [].
Proof.
  revert l. induction E as [|e E IH] using rev_ind; intros l.
  - unfold assign_pages. simpl. by rewrite lookup_empty.
  - rewrite assign_pages_snoc. unfold push.
    destruct (assign_pages E !! page e) as [l0|] eqn:E0.
    + rewrite lookup_insert. case_decide; [|by apply IH].
      intros [= <-]. by destruct l0.
    + rewrite lookup_insert. case_decide; [|by apply IH]. by intros [= <-].
Qed.

(** X4.  Every key of the map is a scanned page, from 3 to the number
    of pages; its list is not empty and holds indices of the title list.
    With no title, or with a document of two pages or fewer, the map is
    empty. *)
Theorem find_page_number_map_shape pdf T ex :
  (∀ p l, find_page_number pdf T ex !! p = Some l →
     l ≠ [] ∧ 3 ≤ p ≤ numPages pdf ∧ Forall (fun i => i < length T) l) ∧
  (T = [] ∨ numPages pdf ≤ 2 → find_page_number pdf T ex = ∅).
Proof.
  assert (H : ∀ p l, find_page_number pdf T ex !! p = Some l →
     l ≠ [] ∧ 3 ≤ p ≤ numPages pdf ∧ Forall (fun i => i < length T) l).
  { intros p l Hl.
    assert (Hne : l ≠ []).
    { rewrite find_page_number_events in Hl. by eapply assign_pages_nonempty. }
    assert (Hall : ∀ i, i ∈ l → 3 ≤ p ≤ numPages pdf ∧ i < length T).
    { intros i Hin.
      destruct (find_page_number_sound pdf T ex p i) as (Hp & t & pc & HT & _).
      - unfold indices_on. by rewrite Hl.
      - split; [done|]. by eapply lookup_lt_Some. }
    split; [done|]. split.
    - destruct l as [|i l]; [done|]. apply (Hall i). by left.
    - apply Forall_forall. intros i Hin. by apply Hall. }
  split; [done|]. intros Hor. apply map_eq. intros p. rewrite lookup_empty.
  destruct (find_page_number pdf T ex !! p) as [l|] eqn:Hl; [|done].
  destruct (H p l Hl) as (Hne & Hp & Hall). destruct Hor as [-> | Hn]; [|lia].
  destruct l as [|i l]; [done|]. apply Forall_cons in Hall as [Hi _]. simpl in Hi. lia.
Qed.

(** The empty title matches at every text run. *)
Lemma forEach_match_empty_title p T' : ∀ k ms n,
  T' !! n = Some EmptyString →
  {| page := p; index := k + n; title := EmptyString |}
    ∈ events (forEach_match p k T' ms).
Proof.
  induction T' as [|x T' IH]; intros k ms n Hn; [done|]. simpl.
  destruct n as [|n]; simplify_eq/=.
  - destruct (forEach_match_events p T' (S k) (note_match p ms k EmptyString))
      as (new & -> & _).
    unfold note_match. rewrite includes_empty_r. simpl.
    rewrite Nat.add_0_r, !elem_of_app, list_elem_of_singleton. auto.
  - replace (k + S n) with (S k + n) by lia. by apply IH.
Qed.

(** X5.  An empty title occurs in any text: without extra pages its
    index is listed under every scanned page that has a text run. *)
Theorem empty_title_is_numbered_on_every_page pdf T ex p pc i :
  (ex ≤ 0)%Z → 3 ≤ p → pdf !! (p - 1) = Some pc → pc ≠ [] →
  T !! i = Some EmptyString →
  i ∈ indices_on (find_page_number pdf T ex) p.
Proof.
  intros Hex Hp Hpc Hne HT. rewrite find_page_number_events. unfold assigned.
  rewrite (proj2 (Z.ltb_ge 0 ex)) by lia.
  apply elem_of_assign_pages.
  exists {| page := p; index := i; title := EmptyString |}.
  split; [|done]. unfold match_events.
  assert (Hlk : drop 2 pdf !! (p - 3) = Some pc).
  { rewrite lookup_drop. by replace (2 + (p - 3)) with (p - 1) by lia. }
  replace p with (3 + (p - 3)) at 1 by lia.
  generalize dependent (p - 3). generalize 3.
  generalize {| events := []; buffer := EmptyString |}.
  induction (drop 2 pdf) as [|pc0 pages IH]; intros ms q n Hn; [done|].
  simpl. destruct n as [|n]; simplify_eq/=.
  - destruct (match_pages_events T pages (S q)
                (match_items T q pc {| events := events ms; buffer := EmptyString |}))
      as (new & -> ).
    apply elem_of_app. left. rewrite Nat.add_0_r.
    destruct pc as [|it items]; [done|]. simpl.
    match goal with
    | |- _ ∈ events (match_items T q items ?m) =>
        destruct (match_items_events T q items m) as (new2 & -> & _)
    end.
    apply elem_of_app. left.
    by apply (forEach_match_empty_title q T 0 _ i).
  - replace (q + S n) with (S q + n) by lia. by apply IH.
Qed.

End TitleFacts.

(** ** The outcomes of the merge *)

Module MergeFacts.
Import Effects Assembler AssemblerFacts.

Lemma trim_short n : ∀ d : PDFDoc,
  0 < n → length d ≤ n → trim n d = Throw (PdfLibError "removePage").
Proof.
  induction n as [|n IH]; intros d Hn Hd; [lia|]. simpl.
  unfold removePage. case_bool_decide as H1; [|done].
  destruct (decide (n = 0)) as [->|Hn0].
  - lia.
  - apply IH; [lia|]. rewrite length_app, length_take, length_drop. lia.
Qed.

Lemma merge_docs_cases (cover body : PDFDoc) ex :
  merge_docs cover body ex =
  if bool_decide (body = []) then Throw (PdfLibError "removePage")
  else if bool_decide (Z.to_nat ex < length cover)
       then Ok (take 1 cover ++ drop 1 body)
       else if (0 <? ex)%Z then Throw (PdfLibError "removePage")
            else Throw (TypeError "copyPages").
Proof.
  case_bool_decide as Hb.
  - subst. unfold merge_docs. by rewrite removePage_first.
  - case_bool_decide as Hc.
    + apply merge_docs_ok; [|done]. destruct body; [done | simpl; lia].
    + unfold merge_docs. rewrite removePage_first.
      destruct body as [|b0 rest]; [done|].
      destruct (0 <? ex)%Z eqn:Hex.
      * apply Z.ltb_lt in Hex. rewrite trim_short; [done | lia | lia].
      * apply Z.ltb_ge in Hex. destruct cover; [done|]. simpl in Hc. lia.
Qed.

Lemma mergePDFs_ok_iff env c b ex w r :
  (mergePDFs env [c; b] ex w).1 = Ok r ↔
  ∃ cover body, load env c = Some cover ∧ load env b = Some body ∧
    body ≠ [] ∧ Z.to_nat ex < length cover ∧
    r = save env (take 1 cover ++ drop 1 body).
Proof.
  rewrite mergePDFs_two. split.
  - destruct (load env c) as [cover|]; [|done].
    destruct (load env b) as [body|]; [|done].
    rewrite merge_docs_cases.
    case_bool_decide as Hb; [done|]. case_bool_decide as Hc.
    + simpl. intros [= <-]. by exists cover, body.
    + by destruct (0 <? ex)%Z.
  - intros (cover & body & -> & -> & Hb & Hc & ->).
    rewrite merge_docs_cases, bool_decide_false, bool_decide_true by done.
    done.
Qed.

(** X6.  [mergePDFs] on two buffers, in closed form.  A buffer that
    does not load, a body document without page, or a cover document of
    [extrapages] pages or fewer makes it throw; otherwise it saves page
    0 of the cover followed by the body without its page 0. *)
Theorem mergePDFs_outcome env c b ex w :
  mergePDFs env [c; b] ex w =
  match load env c with
  | None => (Throw LoadError, logged w [Loaded c])
  | Some cover =>
      match load env b with
      | None => (Throw LoadError, logged w [Loaded c; Loaded b])
      | Some body =>
          if bool_decide (body = []) then
            (Throw (PdfLibError "removePage"), logged w [Loaded c; Loaded b])
          else if bool_decide (Z.to_nat ex < length cover) then
            (Ok (save env (take 1 cover ++ drop 1 body)),
             logged w [Loaded c; Loaded b; Saved (take 1 cover ++ drop 1 body)])
          else if (0 <? ex)%Z then
            (Throw (PdfLibError "removePage"), logged w [Loaded c; Loaded b])
          else
            (Throw (TypeError "copyPages"), logged w [Loaded c; Loaded b])
      end
  end.
Proof.
  rewrite mergePDFs_two.
  destruct (load env c) as [cover|]; [|done].
  destruct (load env b) as [body|].
  2:{ unfold logged. simpl. by rewrite <- app_assoc. }
  rewrite merge_docs_cases.
  repeat case_bool_decide; try destruct (0 <? ex)%Z;
    unfold logged; simpl; by rewrite <- !app_assoc.
Qed.

End MergeFacts.

(** ** The injector *)

Module InjectorFacts.
Import JsString Dom TitleLocator Effects Assembler Injector DomFacts DomQueries.
Import TitleLocatorFacts.
#[local] Arguments String.append : simpl nomatch.

Lemma textContent_element a cs : textContent (Element a cs) = text_of cs.
Proof. simpl. induction cs as [|c cs IH]; simpl; [done|]. by rewrite IH. Qed.

Lemma text_of_app l1 l2 : text_of (l1 ++ l2) = text_of l1 +:+ text_of l2.
Proof.
  induction l1 as [|c l1 IH]; simpl; [done|]. by rewrite IH, append_assoc.
Qed.

Lemma find_among_is_element sel cs e :
  find_among sel cs = Some e → ∃ a ds, e = Element a ds ∧ sel a = true.
Proof.
  induction cs as [|c cs IH]; simpl; [done|].
  destruct (find_first sel c) eqn:E; [|done].
  intros [= <-]. by eapply find_first_is_element.
Qed.

Lemma modify_first_found sel f n e :
  keeps_attrs f → find_first sel n = Some e →
  ∃ n', modify_first sel f n = Some n' ∧ find_first sel n' = Some (f e).
Proof.
  intros Hf. revert e. induction n as [t|a cs IH] using Node_ind'; intros e; [done|].
  rewrite find_first_element, modify_first_element.
  destruct (sel a) eqn:Ha.
  - intros [= <-]. eexists. split; [done|].
    destruct (Hf a cs) as [cs' ->]. by rewrite find_first_element, Ha.
  - intros H.
    assert (∃ cs', modify_among sel f cs = Some cs' ∧
                   find_among sel cs' = Some (f e)) as (cs' & -> & Hcs').
    { induction IH as [|c cs Hc _ IHcs]; simpl in *; [done|].
      destruct (find_first sel c) as [r|] eqn:Hr.
      - simplify_eq. destruct (Hc e eq_refl) as (c' & -> & Hc').
        eexists. split; [done|]. simpl. by rewrite Hc'.
      - rewrite (modify_first_None _ _ _ Hr).
        destruct (IHcs H) as (cs' & -> & Hcs').
        eexists. split; [done|]. simpl. by rewrite Hr. }
    eexists. split; [done|]. by rewrite find_first_element, Ha.
Qed.

Lemma modify_among_found sel f cs e :
  keeps_attrs f → find_among sel cs = Some e →
  ∃ cs', modify_among sel f cs = Some cs' ∧ find_among sel cs' = Some (f e).
Proof.
  intros Hf. induction cs as [|c cs IH]; simpl; [done|].
  destruct (find_first sel c) as [r|] eqn:Hr.
  - intros [= <-]. destruct (modify_first_found sel f c r Hf Hr) as (c' & -> & Hc').
    eexists. split; [done|]. simpl. by rewrite Hc'.
  - intros H. rewrite (modify_first_None _ _ _ Hr).
    destruct (IH H) as (cs' & -> & Hcs').
    eexists. split; [done|]. simpl. by rewrite Hr.
Qed.

Lemma children_modify_child k f (cs : list Node) a c :
  children (Element a cs) !! k = Some c → is_element (f c) = true →
  children (Element a (modify_child k f cs)) = <[k := f c]> (children (Element a cs)).
Proof.
  simpl. revert k. induction cs as [|x cs IH]; intros k; [done|].
  destruct x as [s|b ds].
  - simpl. rewrite !filter_cons. simpl. apply IH.
  - destruct k as [|k]; simpl; rewrite !filter_cons; simpl.
    + intros [= <-] Hf. by rewrite decide_True by done.
    + intros Hk Hf. by rewrite IH.
Qed.

(** X7.  For an entry of the container that holds a link,
    [inject_number] appends to the first link of the entry a [dots] span
    and a span with the page number, of class [subtitle-page-number]
    when the text of the link holds a dot and [title-page-number]
    otherwise; the other entries are left as they are. *)
Theorem inject_number_appends_page page k toc c link :
  children toc !! k = Some c →
  querySelector (has_tag "a") c = Some link →
  ∃ toc' c' link',
    inject_number page k toc = Ok toc' ∧
    children toc' = <[k := c']> (children toc) ∧
    querySelector (has_tag "a") c' = Some link' ∧
    link' = appendChild
              (span (if includes (textContent link) "." then "subtitle-page-number"
                     else "title-page-number") [Text (pretty page)])
              (appendChild (span "dots" []) link) ∧
    textContent link' = textContent link +:+ pretty page.
Proof.
  intros Hc Hlink. unfold inject_number. rewrite Hc, Hlink.
  destruct toc as [s|a cs]; [done|].
  set (titlePage := span _ [Text (pretty page)]).
  set (f := fun l => appendChild titlePage (appendChild (span "dots" []) l)).
  assert (Hf : keeps_attrs f).
  { intros b ds. unfold f. simpl. by eexists. }
  destruct c as [s|b ds]; [done|]. simpl in Hlink.
  destruct (modify_among_found _ f ds link Hf Hlink) as (ds' & Hds' & Hfind).
  eexists _, (Element b ds'), (f link). split; [done|]. split_and!.
  - rewrite (children_modify_child k _ cs a (Element b ds) Hc).
    + by rewrite Hds'.
    + by rewrite Hds'.
  - done.
  - done.
  - destruct (find_among_is_element _ _ _ Hlink) as (la & lcs & -> & _).
    unfold f. cbn [appendChild]. rewrite !textContent_element, !text_of_app.
    simpl. by rewrite !append_empty_r.
Qed.

Lemma read_titles_length es ts :
  read_titles es = Ok ts → length ts = length es.
Proof.
  revert ts. induction es as [|c es IH]; intros ts; simpl; [by intros [= <-]|].
  destruct (children c); [done|]. destruct (read_titles es); [|done].
  intros [= <-]. simpl. by rewrite (IH _ eq_refl).
Qed.

Lemma read_titles_throw es :
  (∃ c, c ∈ es ∧ children c = []) → read_titles es = Throw (TypeError "link").
Proof.
  induction es as [|c es IH]; intros (x & Hx & Hnone).
  - by apply elem_of_nil in Hx.
  - simpl. apply elem_of_cons in Hx as [<- | Hx].
    + by rewrite Hnone.
    + destruct (children c); [done|]. rewrite IH by eauto. done.
Qed.

Lemma read_titles_ok es :
  (∀ c, c ∈ es → children c ≠ []) →
  ∃ ts, read_titles es = Ok ts ∧
        ∀ k c, es !! k = Some c →
          ∃ link, head (children c) = Some link ∧ ts !! k = Some (textContent link).
Proof.
  induction es as [|c es IH]; intros Hall.
  - exists []. split; [done|]. by intros k c.
  - destruct IH as (ts & Hts & Hk); [intros x Hx; apply Hall; by right|].
    simpl. destruct (children c) as [|link rest] eqn:E.
    + exfalso. eapply Hall; [by left | done].
    + rewrite Hts. eexists. split; [done|]. intros [|k] x Hx; simplify_eq/=.
      * exists link. by rewrite E.
      * by apply Hk.
Qed.

(** X8.  When the container is found, the titles given to
    [find_page_number] are the texts of the first element child of every
    entry, in order; an entry without an element child makes the update
    throw after its first log line. *)
Theorem updateTableOfContent_reads_every_entry pdf ex w toc :
  find_first (has_id "table-of-content") (page1 w) = Some toc →
  ((∃ c, c ∈ children toc ∧ children c = []) →
   updateTableOfContent Page1 pdf ex w =
     (Throw (TypeError "link"), logged w [Log "Mise à jour du sommaire."])) ∧
  ((∀ c, c ∈ children toc → children c ≠ []) →
   ∃ titles, read_titles (children toc) = Ok titles ∧
     length titles = length (children toc) ∧
     (∀ k c, children toc !! k = Some c →
        ∃ link, head (children c) = Some link ∧
                titles !! k = Some (textContent link)) ∧
     updateTableOfContent Page1 pdf ex w =
       (inject Page1 (find_page_number pdf titles ex);;
        log "Fin de la mise à jour du sommaire.")%js
         (logged w [Log "Mise à jour du sommaire."])).
Proof.
  intros Htoc. split.
  - intros H. cbv [updateTableOfContent bind log emit get_page lift]. simpl.
    rewrite Htoc, (read_titles_throw _ H). done.
  - intros H. destruct (read_titles_ok _ H) as (titles & Ht & Hk).
    exists titles. split_and!; [done | by eapply read_titles_length | done |].
    cbv [updateTableOfContent]. unfold bind at 1 2 3. cbv [log emit get_page lift].
    simpl. rewrite Htoc, Ht. done.
Qed.

(** X9.  [updatePageCount] writes the count into the first element of
    class [totalPages], which stays the first of its class, and the line
    it logs ends with the count. *)
Theorem updatePageCount_writes_the_first_field page n w d e :
  (get_page page w).1 = Ok d →
  find_first (has_class "totalPages") d = Some e →
  ∃ d' w',
    updatePageCount page n w = (Ok tt, w') ∧
    (get_page page w').1 = Ok d' ∧
    modify_first (has_class "totalPages") (set_textContent (pretty n)) d = Some d' ∧
    find_first (has_class "totalPages") d' = Some (set_textContent (pretty n) e) ∧
    textContent (set_textContent (pretty n) e) = pretty n ∧
    trace w' = trace w ++
      [Log "Mise à jour du total des pages.";
       Log ("Fin de la mise à jour du total des pages. " +:+ pretty n)].
Proof.
  intros [= <-] He.
  destruct (modify_first_set_textContent _ (pretty n) _ _ He) as (d' & Hm & Hf).
  destruct (find_first_is_element _ _ _ He) as (a & cs & -> & _).
  pose proof (textContent_set_textContent (pretty n) a cs) as Ht.
  exists d'.
  destruct page; (eexists; split;
    [ cbv [updatePageCount bind log emit get_page set_page];
      cbn -[textContent set_textContent pretty]; rewrite Hm;
      cbn -[textContent set_textContent pretty]; rewrite Hf;
      cbn -[textContent set_textContent pretty]; rewrite Ht; reflexivity
    | split_and!; [done | exact Hm | exact Hf | exact Ht |];
      simpl; by rewrite <- app_assoc ]).
Qed.

End InjectorFacts.

(** ** The style scripts *)

Module StyleFacts.
Import JsString Dom Effects Pipeline DomFacts DomQueries InjectorFacts.
Import TitleLocatorFacts.
#[local] Arguments String.append : simpl nomatch.
Open Scope js_scope.

Lemma all_attrs_map_elements f n :
  all_attrs (map_elements f n) = map f (all_attrs n).
Proof.
  induction n as [s|a cs IH] using Node_ind'; [done|].
  simpl. f_equal. induction IH as [|c cs Hc _ IHcs]; simpl; [done|].
  by rewrite Hc, IHcs, map_app.
Qed.

Lemma textContent_map_elements f n :
  textContent (map_elements f n) = textContent n.
Proof.
  induction n as [s|a cs IH] using Node_ind'; [done|].
  change (map_elements f (Element a cs))
    with (Element (f a) (map (map_elements f) cs)).
  rewrite !textContent_element.
  induction IH as [|c cs Hc _ IHcs]; simpl; [done|]. by rewrite Hc, IHcs.
Qed.

Lemma flex_list_app seen l1 l2 :
  flex_list seen (l1 ++ l2) =
  ((flex_list seen l1).1 ++ (flex_list (flex_list seen l1).2 l2).1,
   (flex_list (flex_list seen l1).2 l2).2).
Proof.
  revert seen. induction l1 as [|a l1 IH]; intros seen; simpl.
  - by destruct (flex_list seen l2).
  - rewrite IH. destruct (flex_list (seen || has_tag "section" a) l1) as [r s].
    by simpl.
Qed.

Lemma flex_later_sections_element seen a cs :
  flex_later_sections seen (Element a cs) =
  (Element (if has_tag "section" a && seen then set_display "flex" a else a)
     (flex_among (seen || has_tag "section" a) cs).1,
   (flex_among (seen || has_tag "section" a) cs).2).
Proof.
  simpl.
  match goal with
  | |- (let '(_, _) := ?f ?s0 cs in _) = _ =>
      assert (H : ∀ l s, f s l = flex_among s l)
  end.
  { induction l as [|c l IH]; intros s; simpl; [done|].
    destruct (flex_later_sections s c) as [c' s1]. by rewrite IH. }
  rewrite H. by destruct (flex_among (seen || has_tag "section" a) cs).
Qed.

Lemma flex_later_sections_spec n :
  ∀ seen,
    all_attrs (flex_later_sections seen n).1 = (flex_list seen (all_attrs n)).1 ∧
    (flex_later_sections seen n).2 = (flex_list seen (all_attrs n)).2 ∧
    textContent (flex_later_sections seen n).1 = textContent n.
Proof.
  induction n as [s|a cs IH] using Node_ind'; intros seen; [done|].
  rewrite flex_later_sections_element. cbn [fst snd].
  rewrite !textContent_element.
  change (all_attrs (Element a cs)) with (a :: concat (map all_attrs cs)).
  cbn [fst snd all_attrs flex_list].
  assert (Hcs : ∀ s,
    concat (map all_attrs (flex_among s cs).1) =
      (flex_list s (concat (map all_attrs cs))).1 ∧
    (flex_among s cs).2 = (flex_list s (concat (map all_attrs cs))).2 ∧
    text_of (flex_among s cs).1 = text_of cs).
  { induction IH as [|c cs Hc _ IHcs]; intros s; simpl; [done|].
    destruct (Hc s) as (H1 & H2 & H3).
    destruct (flex_later_sections s c) as [c' s1]. simpl in *.
    destruct (IHcs s1) as (G1 & G2 & G3).
    destruct (flex_among s1 cs) as [l'' s2].
    simpl in *. rewrite flex_list_app. simpl.
    rewrite <- H1, <- H2, <- G1, <- G2, H3, G3. done. }
  destruct (Hcs (seen || has_tag "section" a)) as (H1 & H2 & H3).
  destruct (flex_list (seen || has_tag "section" a) (concat (map all_attrs cs)))
    as [r s]. simpl in *. by rewrite H1, H2, H3.
Qed.

Lemma has_tag_set_display t d a : has_tag t (set_display d a) = has_tag t a.
Proof. done. Qed.

Lemma filter_section_map_flex l :
  filter (fun a => has_tag "section" a = true) (map (set_display "flex") l) =
  map (set_display "flex") (filter (fun a => has_tag "section" a = true) l).
Proof.
  induction l as [|a l IH]; [done|]. simpl.
  rewrite !filter_cons, has_tag_set_display.
  destruct (decide (has_tag "section" a = true)); simpl; by rewrite IH.
Qed.

Lemma flex_list_sections seen l :
  filter (fun a => has_tag "section" a = true) (flex_list seen l).1 =
  if seen then map (set_display "flex") (filter (fun a => has_tag "section" a = true) l)
  else match filter (fun a => has_tag "section" a = true) l with
       | [] => []
       | a :: r => a :: map (set_display "flex") r
       end.
Proof.
  revert seen. induction l as [|a l IH]; intros seen; simpl; [by destruct seen|].
  specialize (IH (seen || has_tag "section" a)).
  destruct (flex_list (seen || has_tag "section" a) l) as [r s]. simpl in *.
  rewrite !filter_cons.
  destruct (has_tag "section" a) eqn:Ha; simpl.
  - rewrite orb_true_r in IH. destruct seen; simpl.
    + rewrite has_tag_set_display, Ha. simpl. by rewrite IH.
    + rewrite Ha. simpl. by rewrite IH.
  - rewrite orb_false_r in IH. rewrite Ha. simpl.
    destruct seen; by rewrite IH.
Qed.

(** Elements other than sections are not touched by the loop. *)
Lemma flex_list_others seen l :
  filter (fun a => has_tag "section" a ≠ true) (flex_list seen l).1 =
  filter (fun a => has_tag "section" a ≠ true) l.
Proof.
  revert seen. induction l as [|a l IH]; intros seen; simpl; [done|].
  specialize (IH (seen || has_tag "section" a)).
  destruct (flex_list (seen || has_tag "section" a) l) as [r s]. simpl in *.
  rewrite !filter_cons.
  destruct (has_tag "section" a) eqn:Ha; simpl.
  - destruct seen; simpl; rewrite ?has_tag_set_display, ?Ha; simpl; by rewrite IH.
  - rewrite Ha. simpl. by rewrite IH.
Qed.

(** A script on the first match that keeps the text and, up to
    [display], the elements. *)
Lemma modify_first_keeps sel f n n' :
  (∀ e, textContent (f e) = textContent e ∧
        map (set_display "flex") (all_attrs (f e)) =
        map (set_display "flex") (all_attrs e)) →
  modify_first sel f n = Some n' →
  textContent n' = textContent n ∧
  map (set_display "flex") (all_attrs n') = map (set_display "flex") (all_attrs n).
Proof.
  intros Hf. revert n'.
  induction n as [t|a cs IH] using Node_ind'; intros n'; [done|].
  rewrite modify_first_element. destruct (sel a); [intros [= <-]; apply Hf|].
  destruct (modify_among sel f cs) as [cs'|] eqn:Hm; [|done].
  intros [= <-]. rewrite !textContent_element. simpl.
  assert (text_of cs' = text_of cs ∧
          map (set_display "flex") (concat (map all_attrs cs')) =
          map (set_display "flex") (concat (map all_attrs cs))) as [-> ->]; [|done].
  revert cs' Hm. induction IH as [|c cs Hc _ IHcs]; intros cs'; simpl; [done|].
  destruct (modify_first sel f c) as [c'|].
  - intros [= <-]. simpl. destruct (Hc c' eq_refl) as [-> H].
    by rewrite !map_app, H.
  - destruct (modify_among sel f cs) as [cs''|]; [|done].
    intros [= <-]. simpl. destruct (IHcs cs'' eq_refl) as [-> H].
    by rewrite !map_app, H.
Qed.

Lemma clear_cover_keeps ex e :
  textContent (clear_cover ex e) = textContent e ∧
  map (set_display "flex") (all_attrs (clear_cover ex e)) =
  map (set_display "flex") (all_attrs e).
Proof.
  destruct e as [s|a cs]; [done|]. unfold clear_cover.
  destruct (ex =? 0)%Z; [|done].
  rewrite !textContent_element. simpl.
  assert (text_of (map (fun child => match child with
                                     | Text s => Text s
                                     | Element b ds => Element (set_display "none" b) ds
                                     end) cs) = text_of cs ∧
          map (set_display "flex")
            (concat (map all_attrs
               (map (fun child => match child with
                                  | Text s => Text s
                                  | Element b ds => Element (set_display "none" b) ds
                                  end) cs))) =
          map (set_display "flex") (concat (map all_attrs cs))) as [-> ->]; [|done].
  induction cs as [|c cs [IH1 IH2]]; simpl; [done|].
  rewrite !map_app, IH1, IH2.
  destruct c as [s|b ds]; [done|]. by rewrite !textContent_element.
Qed.

Lemma modify_first_found_sel sel f n e :
  (∀ a cs, ∃ a' cs', f (Element a cs) = Element a' cs' ∧ sel a' = sel a) →
  find_first sel n = Some e →
  ∃ n', modify_first sel f n = Some n' ∧ find_first sel n' = Some (f e).
Proof.
  intros Hf. revert e. induction n as [t|a cs IH] using Node_ind'; intros e; [done|].
  rewrite find_first_element, modify_first_element.
  destruct (sel a) eqn:Ha.
  - intros [= <-]. eexists. split; [done|].
    destruct (Hf a cs) as (a' & cs' & -> & Ha'). by rewrite find_first_element, Ha', Ha.
  - intros H.
    assert (∃ cs', modify_among sel f cs = Some cs' ∧
                   find_among sel cs' = Some (f e)) as (cs' & -> & Hcs').
    { induction IH as [|c cs Hc _ IHcs]; simpl in *; [done|].
      destruct (find_first sel c) as [r|] eqn:Hr.
      - simplify_eq. destruct (Hc e eq_refl) as (c' & -> & Hc').
        eexists. split; [done|]. simpl. by rewrite Hc'.
      - rewrite (modify_first_None _ _ _ Hr).
        destruct (IHcs H) as (cs' & -> & Hcs').
        eexists. split; [done|]. simpl. by rewrite Hr. }
    eexists. split; [done|]. by rewrite find_first_element, Ha.
Qed.

(** The loop changes [display] only, so a selector on the id finds the
    same element, looped over. *)
Lemma find_first_flex_later sel n :
  (∀ a, sel (set_display "flex" a) = sel a) →
  ∀ seen,
    match find_first sel n with
    | None => find_first sel (flex_later_sections seen n).1 = None
    | Some e => ∃ seen', find_first sel (flex_later_sections seen n).1 =
                           Some (flex_later_sections seen' e).1
    end.
Proof.
  intros Hsel. induction n as [t|a cs IH] using Node_ind'; intros seen; [done|].
  rewrite flex_later_sections_element. cbn [fst].
  rewrite !find_first_element.
  assert (Ha : sel (if has_tag "section" a && seen then set_display "flex" a else a)
               = sel a).
  { destruct (has_tag "section" a && seen); [apply Hsel|done]. }
  rewrite Ha. destruct (sel a).
  - exists seen. by rewrite flex_later_sections_element.
  - generalize (seen || has_tag "section" a). clear Ha.
    induction IH as [|c cs Hc _ IHcs]; intros s; simpl; [done|].
    specialize (Hc s). destruct (flex_later_sections s c) as [c' s1].
    specialize (IHcs s1). destruct (flex_among s1 cs) as [l'' s2].
    simpl in *. destruct (find_first sel c) as [r|].
    + destruct Hc as [seen' ->]. by exists seen'.
    + rewrite Hc. apply IHcs.
Qed.

Lemma set_display_idemp d a : set_display d (set_display d a) = set_display d a.
Proof. done. Qed.

Lemma flex_list_up_to_display seen l :
  map (set_display "flex") (flex_list seen l).1 = map (set_display "flex") l.
Proof.
  revert seen. induction l as [|a l IH]; intros seen; simpl; [done|].
  specialize (IH (seen || has_tag "section" a)).
  destruct (flex_list (seen || has_tag "section" a) l) as [r s]. simpl in *.
  rewrite IH. by destruct (has_tag "section" a && seen).
Qed.

Lemma has_tag_hide_other_sections t a :
  has_tag t (hide_other_sections a) = has_tag t a.
Proof.
  unfold hide_other_sections.
  by destruct (has_tag "section" a && negb (has_id "presentation" a)).
Qed.

(** ** The two style scripts *)

(** X10.  [getFirstSection] hides every section other than the cover
    and touches nothing else: the other elements keep what the selectors
    read, the text stays, and the two templates are those of the
    first-page header and footer of the document, or the fallback
    texts. *)
Theorem getFirstSection_hides_other_sections page w d0 :
  (get_page page w).1 = Ok d0 →
  ∃ d' header footer w',
    getFirstSection page w = (Ok (d', header, footer), w') ∧
    (get_page page w').1 = Ok d' ∧ trace w' = trace w ∧
    querySelectorAll (has_tag "section") d' =
      map (fun a => if bool_decide (id a = "presentation") then a
                    else set_display "none" a)
        (querySelectorAll (has_tag "section") d0) ∧
    filter (fun a => has_tag "section" a ≠ true) (all_attrs d') =
      filter (fun a => has_tag "section" a ≠ true) (all_attrs d0) ∧
    textContent d' = textContent d0 ∧
    header = match find_first (has_id "header-first-page") d0 with
             | Some e => OuterHTML (map_elements hide_other_sections e)
             | None => Literal "<div>header first page missing</div>"
             end ∧
    footer = match find_first (has_id "footer-first-page") d0 with
             | Some e => OuterHTML (map_elements hide_other_sections e)
             | None => Literal "<div>Footer first page missing</div>"
             end.
Proof.
  intros [= <-].
  set (d0 := match page with Page1 => page1 w | Page2 => page2 w end).
  exists (map_elements hide_other_sections d0),
    (template "header-first-page" "<div>header first page missing</div>"
       (map_elements hide_other_sections d0)),
    (template "footer-first-page" "<div>Footer first page missing</div>"
       (map_elements hide_other_sections d0)),
    (set_page page (map_elements hide_other_sections d0) w).2.
  split; [done|]. split; [by destruct page|]. split; [by destruct page|].
  unfold querySelectorAll. rewrite all_attrs_map_elements.
  split_and!.
  - induction (all_attrs d0) as [|a l IH]; [done|]. simpl.
    rewrite !filter_cons, has_tag_hide_other_sections.
    destruct (decide (has_tag "section" a = true)) as [Ha|Ha]; [|done].
    simpl. rewrite IH. f_equal.
    unfold hide_other_sections, has_id. rewrite Ha.
    by case_bool_decide.
  - induction (all_attrs d0) as [|a l IH]; [done|]. simpl.
    rewrite !filter_cons, has_tag_hide_other_sections.
    destruct (decide (has_tag "section" a ≠ true)) as [Ha|Ha]; [|done].
    rewrite IH. f_equal.
    unfold hide_other_sections. by destruct (has_tag "section" a).
  - apply textContent_map_elements.
  - unfold template. rewrite find_first_map_elements.
    + by destruct (find_first (has_id "header-first-page") d0).
    + intros a. unfold hide_other_sections.
      by destruct (has_tag "section" a && negb (has_id "presentation" a)).
  - unfold template. rewrite find_first_map_elements.
    + by destruct (find_first (has_id "footer-first-page") d0).
    + intros a. unfold hide_other_sections.
      by destruct (has_tag "section" a && negb (has_id "presentation" a)).
Qed.

(** X11.  [getAllSectionsExceptFirst] changes [display] and nothing
    else; every section after the first one of the document is
    displayed, and so is the cover element, which the script does not
    hide. *)
Theorem getAllSectionsExceptFirst_shows_sections page ex w d :
  (get_page page w).1 = Ok d →
  ∃ d2 w',
    getAllSectionsExceptFirst page ex w = (Ok d2, w') ∧
    (get_page page w').1 = Ok d2 ∧ trace w' = trace w ∧
    tail (querySelectorAll (has_tag "section") d2) =
      map (set_display "flex") (tail (querySelectorAll (has_tag "section") d)) ∧
    map (set_display "flex") (all_attrs d2) = map (set_display "flex") (all_attrs d) ∧
    textContent d2 = textContent d ∧
    (∀ e, find_first (has_id "presentation") d = Some e →
          ∃ a cs, find_first (has_id "presentation") d2 = Some (Element a cs) ∧
                  display a = Some "flex").
Proof.
  intros [= <-].
  set (d := match page with Page1 => page1 w | Page2 => page2 w end).
  set (d1 := default d (modify_first (has_id "presentation") (clear_cover ex) d)).
  exists (flex_later_sections false d1).1,
    (set_page page (flex_later_sections false d1).1 w).2.
  split; [done|]. split; [by destruct page|].
  split; [by destruct page|].
  assert (Hd1 : textContent d1 = textContent d ∧
                map (set_display "flex") (all_attrs d1) =
                map (set_display "flex") (all_attrs d)).
  { unfold d1.
    destruct (modify_first (has_id "presentation") (clear_cover ex) d) as [n'|] eqn:Hm;
      [|done].
    eapply modify_first_keeps; [|exact Hm]. apply clear_cover_keeps. }
  destruct Hd1 as [Ht Ha].
  destruct (flex_later_sections_spec d1 false) as (H1 & _ & H3).
  split_and!.
  - unfold querySelectorAll. rewrite H1, flex_list_sections.
    transitivity (tail (map (set_display "flex")
                    (filter (fun a => has_tag "section" a = true) (all_attrs d1)))).
    { by destruct (filter (fun a => has_tag "section" a = true) (all_attrs d1)). }
    rewrite <- filter_section_map_flex, Ha, filter_section_map_flex.
    by destruct (filter (fun a => has_tag "section" a = true) (all_attrs d)).
  - by rewrite H1, flex_list_up_to_display.
  - by rewrite H3.
  - intros e He.
    destruct (find_first_is_element _ _ _ He) as (a & cs & -> & _).
    destruct (modify_first_found_sel (has_id "presentation") (clear_cover ex) d
                (Element a cs)) as (n' & Hm & Hn'); [|done|].
    { intros a0 cs0. simpl. by do 2 eexists. }
    assert (d1 = n') as -> by (unfold d1; by rewrite Hm).
    pose proof (find_first_flex_later (has_id "presentation") n'
                  (fun _ => eq_refl) false) as Hf.
    rewrite Hn' in Hf. destruct Hf as [seen' ->].
    simpl clear_cover. rewrite flex_later_sections_element. cbn [fst].
    do 2 eexists. split; [done|].
    by destruct (has_tag "section" (set_display "flex" a) && seen').
Qed.

End StyleFacts.

(** ** Invariants of runs *)

Module RunFacts.
Import JsString Dom TitleLocator Effects Assembler Injector Pipeline Runs.
Import AssemblerFacts MergeFacts.
Open Scope js_scope.

#[export] Instance adds_preorder P : PreOrder (adds P).
Proof.
  split.
  - intros w. exists []. by rewrite app_nil_r.
  - intros w1 w2 w3 (t1 & E1 & F1) (t2 & E2 & F2). exists (t1 ++ t2).
    rewrite E2, E1, app_assoc. split; [done|]. by apply Forall_app.
Qed.

#[export] Instance keeps_browser_preorder P : PreOrder (keeps_browser P).
Proof.
  split.
  - intros w Hw. split; [done|]. reflexivity.
  - intros w1 w2 w3 H1 H2 Hw. destruct (H1 Hw) as [Hw2 A1].
    destruct (H2 Hw2) as [Hw3 A2]. split; [done|]. by etrans.
Qed.

Section run_inv.
Context (R : relation World) `{!PreOrder R}.

Lemma run_inv_ret {A} (a : A) : run_inv R (ret a).
Proof. intros w. simpl. reflexivity. Qed.

Lemma run_inv_throw {A} e : run_inv R (@throw A e).
Proof. intros w. simpl. reflexivity. Qed.

Lemma run_inv_lift {A} (o : Outcome A) : run_inv R (lift o).
Proof. intros w. simpl. reflexivity. Qed.

Lemma run_inv_get_page p : run_inv R (get_page p).
Proof. intros w. simpl. reflexivity. Qed.

Lemma run_inv_get_instance : run_inv R get_instance.
Proof. intros w. simpl. reflexivity. Qed.

Lemma run_inv_answer {A} e (o : option A) : run_inv R (answer e o).
Proof. destruct o; [apply run_inv_ret | apply run_inv_throw]. Qed.

Lemma run_inv_bind {A B} (c : M A) (k : A → M B) :
  run_inv R c → (∀ a, run_inv R (k a)) → run_inv R (bind c k).
Proof.
  intros Hc Hk w. unfold bind. specialize (Hc w).
  destruct (c w) as [[a|e] w']; simpl in *; [|done].
  etrans; [done|]. apply Hk.
Qed.

Lemma run_inv_try_catch {A} (c : M A) (h : Exn → M A) :
  run_inv R c → (∀ e, run_inv R (h e)) → run_inv R (try_catch c h).
Proof.
  intros Hc Hh w. unfold try_catch. specialize (Hc w).
  destruct (c w) as [[a|e] w']; simpl in *; [done|].
  etrans; [done|]. apply Hh.
Qed.
End run_inv.

Lemma adds_emit P e : P e → run_inv (adds P) (emit e).
Proof. intros H w. exists [e]. split; [done|]. by apply Forall_singleton. Qed.

Lemma adds_set_page P p d : run_inv (adds P) (set_page p d).
Proof. intros w. exists []. destruct p; simpl; by rewrite app_nil_r. Qed.

Lemma adds_set_instance P : run_inv (adds P) set_instance.
Proof. intros w. exists []. simpl. by rewrite app_nil_r. Qed.

Lemma keeps_browser_emit P e : P e → run_inv (keeps_browser P) (emit e).
Proof. intros H w Hw. split; [done|]. by apply adds_emit. Qed.

Lemma keeps_browser_set_page P p d : run_inv (keeps_browser P) (set_page p d).
Proof. intros w Hw. split; [by destruct p|]. apply adds_set_page. Qed.

Section throws_only.
Context (P : Exn → Prop).

Lemma throws_only_ret {A} (a : A) : throws_only P (ret a).
Proof. by intros w e. Qed.

Lemma throws_only_throw {A} e : P e → throws_only P (@throw A e).
Proof. by intros H w e' [= <-]. Qed.

Lemma throws_only_emit e : throws_only P (emit e).
Proof. by intros w e'. Qed.

Lemma throws_only_get_page p : throws_only P (get_page p).
Proof. by intros w e'. Qed.

Lemma throws_only_set_page p d : throws_only P (set_page p d).
Proof. by intros w e'. Qed.

Lemma throws_only_get_instance : throws_only P get_instance.
Proof. by intros w e'. Qed.

Lemma throws_only_set_instance : throws_only P set_instance.
Proof. by intros w e'. Qed.

Lemma throws_only_answer {A} e (o : option A) : P e → throws_only P (answer e o).
Proof. intros H. destruct o; [apply throws_only_ret | by apply throws_only_throw]. Qed.

Lemma throws_only_lift {A} (o : Outcome A) :
  (∀ e, o = Throw e → P e) → throws_only P (lift o).
Proof. intros H w e. simpl. apply H. Qed.

Lemma throws_only_bind {A B} (c : M A) (k : A → M B) :
  throws_only P c → (∀ a, throws_only P (k a)) → throws_only P (bind c k).
Proof.
  intros Hc Hk w e. unfold bind. specialize (Hc w).
  destruct (c w) as [[a|e'] w']; simpl in *; [apply Hk | intros [= <-]; by apply Hc].
Qed.

Lemma throws_only_try_catch {A} (c : M A) (h : Exn → M A) :
  throws_only P c → (∀ e, P e → throws_only P (h e)) → throws_only P (try_catch c h).
Proof.
  intros Hc Hh w e. unfold try_catch. specialize (Hc w).
  destruct (c w) as [[a|e'] w']; simpl in *; [done|].
  apply Hh. by apply Hc.
Qed.
End throws_only.

End RunFacts.

(** ** The stages of [generatePDF] *)

Module StageFacts.
Import JsString Dom TitleLocator Effects Assembler Injector Pipeline Runs RunFacts.
Import AssemblerFacts MergeFacts InjectorFacts.
Open Scope js_scope.

Create HintDb run.

Ltac event_ok := first [ done | by intros ? | by unfold not_closed, not_launched ].

(** A run invariant, by the shape of the computation. *)
Ltac run_inv :=
  repeat lazymatch goal with
    | |- run_inv _ (bind _ _) => apply run_inv_bind; [apply _| |intros ?]
    | |- run_inv _ (try_catch _ _) => apply run_inv_try_catch; [apply _| |intros ?]
    | |- run_inv _ (ret _) => apply run_inv_ret; apply _
    | |- run_inv _ (throw _) => apply run_inv_throw; apply _
    | |- run_inv _ (lift _) => apply run_inv_lift; apply _
    | |- run_inv _ (answer _ _) => apply run_inv_answer; apply _
    | |- run_inv _ (get_page _) => apply run_inv_get_page; apply _
    | |- run_inv _ get_instance => apply run_inv_get_instance; apply _
    | |- run_inv (adds _) (emit _) => apply adds_emit; event_ok
    | |- run_inv (adds _) (log _) => apply adds_emit; event_ok
    | |- run_inv (adds _) (set_page _ _) => apply adds_set_page
    | |- run_inv (adds _) set_instance => apply adds_set_instance
    | |- run_inv (keeps_browser _) (emit _) => apply keeps_browser_emit; event_ok
    | |- run_inv (keeps_browser _) (log _) => apply keeps_browser_emit; event_ok
    | |- run_inv (keeps_browser _) (set_page _ _) => apply keeps_browser_set_page
    | |- run_inv _ (match ?x with _ => _ end) => destruct x
    | |- run_inv _ _ => solve [auto with run]
    end.

(** The class of the exceptions, by the shape of the computation. *)
Ltac throws_only :=
  repeat lazymatch goal with
    | |- throws_only _ (bind _ _) => apply throws_only_bind; [|intros ?]
    | |- throws_only _ (try_catch _ _) => apply throws_only_try_catch; [|intros ? ?]
    | |- throws_only _ (ret _) => apply throws_only_ret
    | |- throws_only _ (throw _) => apply throws_only_throw; try done
    | |- throws_only _ (answer _ _) => apply throws_only_answer; by simpl
    | |- throws_only _ (emit _) => apply throws_only_emit
    | |- throws_only _ (log _) => apply throws_only_emit
    | |- throws_only _ (get_page _) => apply throws_only_get_page
    | |- throws_only _ (set_page _ _) => apply throws_only_set_page
    | |- throws_only _ get_instance => apply throws_only_get_instance
    | |- throws_only _ set_instance => apply throws_only_set_instance
    | |- throws_only _ (match ?x with _ => _ end) => destruct x eqn:?
    | |- throws_only _ _ => solve [auto with run]
    end.

(** *** What the stages before the merge throw *)

Lemma read_titles_throws es e : read_titles es = Throw e → e = TypeError "link".
Proof.
  induction es as [|c es IH]; simpl; [done|].
  destruct (children c); [by intros [= <-]|].
  destruct (read_titles es); [done|]. intros [= <-]. by apply IH.
Qed.

Lemma inject_number_throws page k toc e :
  inject_number page k toc = Throw e → e = TypeError "link".
Proof.
  unfold inject_number. destruct (children toc !! k); [|done].
  destruct (querySelector _ _); [|by intros [= <-]]. by destruct toc.
Qed.

Lemma inject_all_throws work : ∀ toc toc' e,
  inject_all work toc = (toc', Some e) → e = TypeError "link".
Proof.
  induction work as [|[page k] work IH]; intros toc toc' e; simpl; [done|].
  destruct (inject_number page k toc) eqn:E; [apply IH|].
  intros [= <- <-]. by eapply inject_number_throws.
Qed.

Lemma early_getInstance env : throws_only early (getInstance env).
Proof. unfold getInstance. throws_only. Qed.

Lemma early_render env p o : throws_only early (render env p o).
Proof. unfold render. throws_only. Qed.

Lemma early_parse env b : throws_only early (parse env b).
Proof. unfold parse. throws_only. Qed.

Lemma early_getFirstSection p : throws_only early (getFirstSection p).
Proof. unfold getFirstSection. throws_only. Qed.

Lemma early_updatePageCount p n : throws_only early (updatePageCount p n).
Proof. unfold updatePageCount. throws_only. Qed.

Lemma early_inject p m : throws_only early (inject p m).
Proof.
  unfold inject. throws_only. simplify_eq.
  match goal with H : inject_all _ _ = _ |- _ => apply inject_all_throws in H as -> end.
  done.
Qed.
#[export] Hint Resolve early_getInstance early_render early_parse
  early_getFirstSection early_updatePageCount early_inject : run.

Lemma early_updateTableOfContent p pdf ex :
  throws_only early (updateTableOfContent p pdf ex).
Proof.
  unfold updateTableOfContent. throws_only.
  apply throws_only_lift. by intros e ->%read_titles_throws.
Qed.
#[export] Hint Resolve early_updateTableOfContent : run.

Lemma early_prepare env : throws_only early (prepare env).
Proof. unfold prepare. throws_only. Qed.

Lemma early_probe_extrapages env : throws_only early (probe_extrapages env).
Proof. unfold probe_extrapages. throws_only. Qed.

Lemma early_update_numbers env ex : throws_only early (update_numbers env ex).
Proof. unfold update_numbers. throws_only. Qed.

Lemma early_render_cover env d h f : throws_only early (render_cover env d h f).
Proof. unfold render_cover. throws_only. Qed.

Lemma early_render_body env ex o : throws_only early (render_body env ex o).
Proof. unfold render_body, getAllSectionsExceptFirst, getHeader, getFooter. throws_only. Qed.

Lemma late_mergePDFs env c b ex : throws_only late (mergePDFs env [c; b] ex).
Proof.
  intros w e. rewrite mergePDFs_two. unfold late.
  destruct (load env c); [|intros [= <-]; auto].
  destruct (load env b); [|intros [= <-]; auto].
  rewrite merge_docs_cases. repeat case_bool_decide; simpl;
    [intros [= <-]; auto | done |].
  destruct (0 <? ex)%Z; intros [= <-]; auto.
Qed.

End StageFacts.

(** ** The two-pass splitter *)

Module SplitterFacts.
Import JsString Dom TitleLocator Effects Assembler Injector Pipeline Runs RunFacts.
Import AssemblerFacts MergeFacts InjectorFacts StageFacts.
Open Scope js_scope.

(** *** No page is closed before the merge *)

Lemma noclose_getInstance env : run_inv (adds not_closed) (getInstance env).
Proof. unfold getInstance. run_inv. Qed.

Lemma noclose_render env p o : run_inv (adds not_closed) (render env p o).
Proof. unfold render. run_inv. Qed.

Lemma noclose_parse env b : run_inv (adds not_closed) (parse env b).
Proof. unfold parse. run_inv. Qed.

Lemma noclose_getFirstSection p : run_inv (adds not_closed) (getFirstSection p).
Proof. unfold getFirstSection. run_inv. Qed.

Lemma noclose_updatePageCount p n : run_inv (adds not_closed) (updatePageCount p n).
Proof. unfold updatePageCount. run_inv. Qed.

Lemma noclose_updateTableOfContent p pdf ex :
  run_inv (adds not_closed) (updateTableOfContent p pdf ex).
Proof. unfold updateTableOfContent, inject. run_inv. Qed.
#[export] Hint Resolve noclose_getInstance noclose_render noclose_parse
  noclose_getFirstSection noclose_updatePageCount noclose_updateTableOfContent : run.

Lemma noclose_prepare env : run_inv (adds not_closed) (prepare env).
Proof. unfold prepare. run_inv. Qed.

Lemma noclose_probe_extrapages env : run_inv (adds not_closed) (probe_extrapages env).
Proof. unfold probe_extrapages. run_inv. Qed.

Lemma noclose_update_numbers env ex : run_inv (adds not_closed) (update_numbers env ex).
Proof. unfold update_numbers. run_inv. Qed.

Lemma noclose_render_cover env d h f : run_inv (adds not_closed) (render_cover env d h f).
Proof. unfold render_cover. run_inv. Qed.

Lemma noclose_render_body env ex o : run_inv (adds not_closed) (render_body env ex o).
Proof.
  unfold render_body, getAllSectionsExceptFirst, getHeader, getFooter. run_inv.
Qed.

Lemma getFirstSection_ok w d h f w' :
  getFirstSection Page1 w = (Ok (d, h, f), w') →
  d = map_elements hide_other_sections (page1 w) ∧
  h = template "header-first-page" "<div>header first page missing</div>" d ∧
  f = template "footer-first-page" "<div>Footer first page missing</div>" d ∧
  page1 w' = d.
Proof. by intros [= <- <- <- <-]. Qed.

Lemma render_cover_ok env d h f w c o w' :
  render_cover env d h f w = (Ok (c, o), w') →
  o = with_templates h f options0 ∧ pdf env d o = Some c ∧ page1 w' = page1 w.
Proof.
  cbv [render_cover render bind log emit set_page get_page answer ret throw].
  simpl. destruct (pdf env d _) eqn:E; simpl; [|done]. by intros [= <- <- <-].
Qed.

Lemma render_body_ok env ex o w b w' :
  render_body env ex o w = (Ok b, w') →
  let d1 := page1 w in
  let d2 := (flex_later_sections false
               (default d1 (modify_first (has_id "presentation")
                              (clear_cover ex) d1))).1 in
  pdf env d2
    (with_templates (template "header-container" "<div>header missing</div>" d2)
       (template "footer" "<div>Footer first page missing</div>" d2)
       (with_margin_top "35mm" o)) = Some b ∧
  writeFileSync env "output.html" d2 = true ∧
  Written "output.html" ∈ trace w'.
Proof.
  cbv [render_body getAllSectionsExceptFirst getHeader getFooter render bind log
       emit set_page get_page answer ret throw].
  simpl. destruct (writeFileSync env _ _) eqn:W; simpl; [|done].
  match goal with |- context [pdf env ?d ?o2] => destruct (pdf env d o2) eqn:E end;
    simpl; [|done].
  intros [= <- <-]. split_and!; [done..|]. simpl.
  rewrite !elem_of_app, !list_elem_of_singleton. tauto.
Qed.

(** How a run of [generatePDF] ends: with an exception of a stage
    before the merge, no page closed; or with the merge of the two
    final renders, run once both pages are closed.  [ex] is the count
    of the extra pages of the cover, [w3] the world once the numbers
    are written. *)
Lemma generatePDF_cases env w r w' :
  generatePDF env w = (r, w') →
  (∃ e, r = Throw e ∧ early e ∧ adds not_closed w w') ∨
  (∃ w0 w2 w3 c b ex,
     adds not_closed w w0 ∧
     upto_probe env w = (Ok ex, w2) ∧
     update_numbers env ex w2 = (Ok tt, w3) ∧
     let dc := map_elements hide_other_sections (page1 w3) in
     let db := (flex_later_sections false
                  (default dc (modify_first (has_id "presentation")
                                 (clear_cover ex) dc))).1 in
     let oc := with_templates
                 (template "header-first-page" "<div>header first page missing</div>" dc)
                 (template "footer-first-page" "<div>Footer first page missing</div>" dc)
                 options0 in
     let ob := with_templates
                 (template "header-container" "<div>header missing</div>" db)
                 (template "footer" "<div>Footer first page missing</div>" db)
                 (with_margin_top "35mm" oc) in
     pdf env dc oc = Some c ∧ pdf env db ob = Some b ∧
     writeFileSync env "output.html" db = true ∧
     Written "output.html" ∈ trace w0 ∧
     (r, w') =
       mergePDFs env [c; b] ex
         (logged w0 [Closed Page2; Closed Page1;
                     Log "Browser closed after generating PDF parts."])).
Proof.
  unfold generatePDF. unfold bind at 1.
  assert (A0 : adds not_closed w (emit (Enter "generatePDF") w).2).
  { apply adds_emit. by intros ?. }
  destruct (emit (Enter "generatePDF") w) as [[[]|e0] w0] eqn:E0; [|done].
  simpl in A0. unfold bind at 1.
  pose proof (noclose_prepare env w0) as A1.
  pose proof (early_prepare env w0) as T1.
  destruct (prepare env w0) as [[[]|e1] w1] eqn:E1; simpl in *.
  2:{ intros [= <- <-]. left. exists e1.
      split_and!; [done | by apply T1 | by etrans]. }
  unfold bind at 1.
  pose proof (noclose_probe_extrapages env w1) as A2.
  pose proof (early_probe_extrapages env w1) as T2.
  destruct (probe_extrapages env w1) as [[ex|e2] w2] eqn:E2; simpl in *.
  2:{ intros [= <- <-]. left. exists e2.
      split_and!; [done | by apply T2 | by do 2 (etrans; [done|])]. }
  unfold bind at 1.
  pose proof (noclose_update_numbers env ex w2) as A3.
  pose proof (early_update_numbers env ex w2) as T3.
  destruct (update_numbers env ex w2) as [[[]|e3] w3] eqn:E3; simpl in *.
  2:{ intros [= <- <-]. left. exists e3. split_and!; [done | by apply T3 |].
      by do 3 (etrans; [done|]). }
  unfold final_passes. unfold bind at 1.
  pose proof (noclose_getFirstSection Page1 w3) as A4.
  pose proof (early_getFirstSection Page1 w3) as T4.
  destruct (getFirstSection Page1 w3) as [[[[d h] f]|e4] w4] eqn:E4; simpl in *.
  2:{ intros [= <- <-]. left. exists e4. split_and!; [done | by apply T4 |].
      by do 4 (etrans; [done|]). }
  apply getFirstSection_ok in E4 as (Hd & Hh & Hf & Hp4).
  unfold bind at 1.
  pose proof (noclose_render_cover env d h f w4) as A5.
  pose proof (early_render_cover env d h f w4) as T5.
  destruct (render_cover env d h f w4) as [[[c oc]|e5] w5] eqn:E5; simpl in *.
  2:{ intros [= <- <-]. left. exists e5. split_and!; [done | by apply T5 |].
      by do 5 (etrans; [done|]). }
  apply render_cover_ok in E5 as (-> & Hc & Hp5).
  unfold bind at 1.
  pose proof (noclose_render_body env ex (with_templates h f options0) w5) as A6.
  pose proof (early_render_body env ex (with_templates h f options0) w5) as T6.
  destruct (render_body env ex (with_templates h f options0) w5)
    as [[b|e6] w6] eqn:E6; simpl in *.
  2:{ intros [= <- <-]. left. exists e6. split_and!; [done | by apply T6 |].
      by do 6 (etrans; [done|]). }
  apply render_body_ok in E6. rewrite Hp5, Hp4 in E6.
  destruct E6 as (E6 & W6 & I6).
  intros H. right. exists w6, w2, w3, c, b, ex.
  split; [by do 6 (etrans; [done|])|].
  split; [unfold upto_probe, bind; by rewrite E0, E1|].
  split; [done|].
  rewrite <- Hd, <- Hh, <- Hf. split_and!; [done..|].
  rewrite <- H. cbv [bind emit log]. simpl. unfold logged. simpl.
  by rewrite <- !app_assoc.
Qed.

End SplitterFacts.

(** ** What [generatePDF] returns, throws and leaves behind *)

Module GeneratePdfFacts.
Import JsString Dom TitleLocator Effects Assembler Injector Pipeline App Runs RunFacts.
Import AssemblerFacts MergeFacts InjectorFacts StageFacts SplitterFacts TraceFacts.
Open Scope js_scope.

Lemma early_not_late e : early e → late e → False.
Proof. intros He [-> | [-> | ->]]; by simpl in He. Qed.

Lemma generatePDF_ok_trace env w r w' :
  generatePDF env w = (Ok r, w') →
  ∃ t1 t2, trace w' = trace w ++ t1 ++ [Closed Page2; Closed Page1] ++ t2.
Proof.
  intros [(e & ? & _) | (w0 & w2 & w3 & c & b & ex & Hadd & _ & _ & _ & _ & _ & _ & Hm)]
    %generatePDF_cases; [done|].
  destruct Hadd as (t1 & Ht1 & _).
  destruct (grows_mergePDFs env [c; b] ex
              (logged w0 [Closed Page2; Closed Page1;
                          Log "Browser closed after generating PDF parts."]))
    as (t2 & Ht2).
  rewrite <- Hm in Ht2. simpl in Ht2.
  exists t1, (Log "Browser closed after generating PDF parts." :: t2).
  rewrite Ht2, Ht1, <- !app_assoc. done.
Qed.

Lemma generatePDF_ok_merge env w r w' :
  generatePDF env w = (Ok r, w') →
  ∃ c b cover body ex,
    load env c = Some cover ∧ load env b = Some body ∧
    Z.to_nat ex < length cover ∧ body ≠ [] ∧
    r = save env (take 1 cover ++ drop 1 body).
Proof.
  intros [(e & ? & _) | (w0 & w2 & w3 & c & b & ex & _ & _ & _ & _ & _ & _ & _ & Hm)]
    %generatePDF_cases; [done|].
  destruct (proj1 (mergePDFs_ok_iff env c b ex
              (logged w0 [Closed Page2; Closed Page1;
                          Log "Browser closed after generating PDF parts."]) r))
    as (cover & body & Hlc & Hlb & Hne & Hlen & ->).
  { by rewrite <- Hm. }
  by exists c, b, cover, body, ex.
Qed.

(** X12.  A run of [generatePDF] that returns has closed its two
    pages, the rendering page first; a run that fails in a stage before
    the merge has closed none. *)
Theorem pages_are_closed_only_before_the_merge env w r w' :
  generatePDF env w = (r, w') →
  match r with
  | Throw e => early e → adds not_closed w w'
  | Ok _ => ∃ t1 t2, trace w' = trace w ++ t1 ++ [Closed Page2; Closed Page1] ++ t2
  end.
Proof.
  intros H. destruct r as [buf|e]; [by eapply generatePDF_ok_trace|].
  destruct (generatePDF_cases _ _ _ _ H)
    as [(e' & [= <-] & He & Hadd) | (w0 & w2 & w3 & c & b & ex & _ & _ & _ & _ & _ & _ & _ & Hm)];
    [done|].
  intros He. exfalso. apply (early_not_late e He).
  eapply (late_mergePDFs env c b ex). by rewrite <- Hm.
Qed.

(** X13.  What [generatePDF] returns.  With [ex] the count of extra
    pages that the probe finds and [w3] the world that the numbering
    stage leaves, the cover is the render of the document of [page1]
    with the sections other than the cover hidden, under the first-page
    header and footer and a top margin of 20mm; the body is the render
    of the document that [getAllSectionsExceptFirst] leaves, under the
    header and footer of the other pages and a top margin of 35mm; the
    result is page 0 of the loaded cover followed by the loaded body
    without its page 0. *)
Theorem generatePDF_returns_the_merged_renders env w r w' :
  generatePDF env w = (Ok r, w') →
  ∃ ex w2 w3 c b cover body,
    upto_probe env w = (Ok ex, w2) ∧
    update_numbers env ex w2 = (Ok tt, w3) ∧
    let dc := map_elements hide_other_sections (page1 w3) in
    let db := (flex_later_sections false
                 (default dc (modify_first (has_id "presentation")
                                (clear_cover ex) dc))).1 in
    let oc := with_templates
                (template "header-first-page" "<div>header first page missing</div>" dc)
                (template "footer-first-page" "<div>Footer first page missing</div>" dc)
                options0 in
    let ob := with_templates
                (template "header-container" "<div>header missing</div>" db)
                (template "footer" "<div>Footer first page missing</div>" db)
                (with_margin_top "35mm" oc) in
    pdf env dc oc = Some c ∧ pdf env db ob = Some b ∧
    load env c = Some cover ∧ load env b = Some body ∧
    Z.to_nat ex < length cover ∧ body ≠ [] ∧
    r = save env (take 1 cover ++ drop 1 body).
Proof.
  intros [(e & ? & _) | (w0 & w2 & w3 & c & b & ex & _ & Hp & Hu & Hc & Hb & _ & _ & Hm)]
    %generatePDF_cases; [done|].
  destruct (proj1 (mergePDFs_ok_iff env c b ex
              (logged w0 [Closed Page2; Closed Page1;
                          Log "Browser closed after generating PDF parts."]) r))
    as (cover & body & Hlc & Hlb & Hne & Hlen & ->).
  { by rewrite <- Hm. }
  by exists ex, w2, w3, c, b, cover, body.
Qed.

(** *** The errors of the program's own making *)

Lemma getInstance_throw env w e w' :
  getInstance env w = (Throw e, w') →
  e = JsError "Puppeteer launch failed: " ∧ instance w = false ∧ launch env = false.
Proof.
  cbv [getInstance bind emit log get_instance set_instance ret throw]. simpl.
  destruct (instance w); simpl; [done|].
  destruct (launch env); simpl; [done|]. by intros [= <- <-].
Qed.

Lemma prepare_throw env w e w' :
  prepare env w = (Throw e, w') →
  e = JsError "Puppeteer launch failed: " ∧ instance w = false ∧ launch env = false.
Proof.
  unfold prepare. unfold bind at 1.
  destruct (getInstance env w) as [[[]|e0] w0] eqn:E.
  - by cbv.
  - intros [= <- <-]. by eapply getInstance_throw.
Qed.

Lemma library_render env p o : throws_only library_error (render env p o).
Proof. unfold render. throws_only. Qed.

Lemma library_parse env b : throws_only library_error (parse env b).
Proof. unfold parse. throws_only. Qed.

Lemma library_getFirstSection p : throws_only library_error (getFirstSection p).
Proof. unfold getFirstSection. throws_only. Qed.

Lemma library_updatePageCount p n : throws_only library_error (updatePageCount p n).
Proof. unfold updatePageCount. throws_only. Qed.

Lemma library_inject p m : throws_only library_error (inject p m).
Proof.
  unfold inject. throws_only. simplify_eq.
  match goal with H : inject_all _ _ = _ |- _ => apply inject_all_throws in H as -> end.
  done.
Qed.
#[export] Hint Resolve library_inject : run.

Lemma library_updateTableOfContent p pdf ex :
  throws_only library_error (updateTableOfContent p pdf ex).
Proof.
  unfold updateTableOfContent. throws_only.
  apply throws_only_lift. by intros e ->%read_titles_throws.
Qed.

Lemma library_mergePDFs env c b ex :
  throws_only library_error (mergePDFs env [c; b] ex).
Proof.
  intros w e H message ->.
  by destruct (late_mergePDFs env c b ex w _ H) as [? | [? | ?]].
Qed.
#[export] Hint Resolve library_render library_parse library_getFirstSection
  library_updatePageCount library_updateTableOfContent library_mergePDFs : run.

Lemma library_probe_extrapages env :
  throws_only library_error (probe_extrapages env).
Proof. unfold probe_extrapages. throws_only. Qed.

Lemma library_update_numbers env ex :
  throws_only library_error (update_numbers env ex).
Proof. unfold update_numbers. throws_only. Qed.

Lemma library_final_passes env ex :
  throws_only library_error (final_passes env ex).
Proof.
  unfold final_passes, render_cover, render_body, getAllSectionsExceptFirst,
    getHeader, getFooter.
  apply throws_only_bind; [auto with run|]. intros [[d h] f].
  apply throws_only_bind; [throws_only|]. intros [c o].
  apply throws_only_bind; [throws_only|]. intros b.
  cbv zeta. simpl (negb _). throws_only.
Qed.

(** X14.  The one [Error] of the program's own making that
    [generatePDF] throws is that of a failed launch, thrown when no
    browser is running and [puppeteer.launch] rejects: neither of the
    two checks of the number of buffers can fail. *)
Theorem generatePDF_own_errors env w message w' :
  generatePDF env w = (Throw (JsError message), w') →
  message = "Puppeteer launch failed: " ∧
  instance w = false ∧ launch env = false ∧
  message ≠ "mergePDFs requires exactly two PDF buffers." ∧
  ∀ n : nat, message ≠ "Expected 2 PDF buffers, but got " +:+ pretty n.
Proof.
  unfold generatePDF. unfold bind at 1. simpl. unfold bind at 1.
  match goal with |- context [prepare env ?w0] =>
    destruct (prepare env w0) as [[[]|e1] w1] eqn:E1 end.
  - intros H. exfalso.
    assert (Hlib : throws_only library_error
              (let* extrapages := probe_extrapages env in
               update_numbers env extrapages;; final_passes env extrapages)).
    { apply throws_only_bind; [apply library_probe_extrapages|]. intros ex.
      apply throws_only_bind; [apply library_update_numbers|]. intros _.
      apply library_final_passes. }
    apply (Hlib w1 (JsError message) ltac:(by rewrite H) message eq_refl).
  - intros [= -> <-]. apply prepare_throw in E1 as ([= ->] & Hi & Hl).
    simpl in Hi. split_and!; [done | done | done | done |]. by intros n [=].
Qed.

(** X15.  Every run of [generatePDF] that reaches the merge has
    written the body document to the file [output.html] of the working
    directory. *)
Theorem generatePDF_writes_output_html env w r w' :
  generatePDF env w = (r, w') →
  (∀ e, r = Throw e → late e) →
  Written "output.html" ∈ trace w'.
Proof.
  intros [(e & -> & He & _) | (w0 & w2 & w3 & c & b & ex & _ & _ & _ & _ & _ & Hw & Hin & Hm)]
    %generatePDF_cases Hlate.
  { destruct (early_not_late e He). by apply Hlate. }
  destruct (grows_mergePDFs env [c; b] ex
              (logged w0 [Closed Page2; Closed Page1;
                          Log "Browser closed after generating PDF parts."]))
    as (t2 & Ht2).
  rewrite <- Hm in Ht2. simpl in Ht2. rewrite Ht2, !elem_of_app. auto.
Qed.

(** *** The browser is launched once *)

Lemma quiet_getInstance env : run_inv (keeps_browser not_launched) (getInstance env).
Proof.
  intros w Hw. unfold getInstance, bind, get_instance. rewrite Hw. simpl.
  split; [done|]. reflexivity.
Qed.
#[export] Hint Resolve quiet_getInstance : run.

Lemma quiet_generateHTML env text :
  run_inv (keeps_browser not_launched) (generateHTML env text).
Proof. unfold generateHTML. run_inv. Qed.

Lemma quiet_generatePDF env : run_inv (keeps_browser not_launched) (generatePDF env).
Proof.
  unfold generatePDF, prepare, probe_extrapages, update_numbers, final_passes,
    render_cover, render_body, getAllSectionsExceptFirst, getHeader, getFooter,
    getFirstSection, render, parse, updatePageCount, updateTableOfContent, inject,
    mergePDFs.
  run_inv.
Qed.

Lemma generateHTML_launches env text w p w' :
  generateHTML env text w = (Ok p, w') → instance w' = true.
Proof.
  cbv [generateHTML getInstance bind emit log get_instance set_instance set_page
       ret throw]. simpl.
  destruct (instance w) eqn:Hw; simpl; [by intros [= <- <-]|].
  destruct (launch env); simpl; [by intros [= <- <-] | done].
Qed.

End GeneratePdfFacts.

(** ** The answers of the handlers *)

Module HandlerFacts.
Import JsString Dom TitleLocator Effects Assembler Injector Pipeline App Runs RunFacts.
Import AssemblerFacts MergeFacts InjectorFacts StageFacts SplitterFacts GeneratePdfFacts.
Import TraceFacts Runs.
Open Scope js_scope.

Lemma noclose_generateHTML env text : run_inv (adds not_closed) (generateHTML env text).
Proof. unfold generateHTML. run_inv. Qed.

Lemma generateHTML_ok env text w p w' :
  generateHTML env text w = (Ok p, w') →
  p = Page1 ∧ page1 w' = parseHTML env text ∧ instance w' = true ∧
  (instance w = true ∨ launch env = true).
Proof.
  cbv [generateHTML getInstance bind emit log get_instance set_instance set_page
       ret throw]. simpl.
  destruct (instance w) eqn:Hw; simpl; [intros [= <- <-]; auto|].
  destruct (launch env); simpl; [intros [= <- <-]; auto | done].
Qed.

Lemma generateHTML_throw env text w e w' :
  generateHTML env text w = (Throw e, w') →
  instance w = false ∧ launch env = false.
Proof.
  cbv [generateHTML getInstance bind emit log get_instance set_instance set_page
       ret throw]. simpl.
  destruct (instance w) eqn:Hw; simpl; [done|].
  by destruct (launch env).
Qed.

(** X16.  [/html_visualiser] answers 400 to an undefined body and
    leaves the world as it is.  To any other body it answers either
    200, handing [res.send] the page as the browser parsed the body,
    without page numbers, or 500 with a text under the content type
    [text/html], after an error line on the console; it answers 500
    when no browser is running and the launch fails.  No page is
    closed. *)
Theorem html_visualiser_answer env req w resp w' :
  html_visualiser env req w = (resp, w') →
  (body req = Undefined → resp = bad_request ∧ w' = w) ∧
  (∀ text, toString (body req) = Ok text →
     adds not_closed w w' ∧
     ((resp = {| status := 200; contentType := Some "text/html";
                 payload := PagePayload (parseHTML env text) |} ∧
       page1 w' = parseHTML env text ∧ instance w' = true) ∨
      (resp = {| status := 500; contentType := Some "text/html";
                 payload := TextPayload "Error generating PDF" |} ∧
       last (trace w') = Some (ConsoleError "Error generating PDF:"))) ∧
     (instance w = false → launch env = false → status resp = 500)).
Proof.
  intros H. split.
  { intros Hb. unfold html_visualiser in H. rewrite Hb in H. by simplify_eq/=. }
  intros text Ht.
  assert (Hr : respond "text/html" PagePayload
                 (let* html := generateHTML env text in get_page html) w
               = (resp, w')).
  { unfold html_visualiser in H. by destruct (body req); simplify_eq/=. }
  clear H Ht. revert Hr. unfold respond, bind.
  pose proof (noclose_generateHTML env text w) as Hadd.
  destruct (generateHTML env text w) as [[p|e] w1] eqn:E; simpl in *;
    intros [= <- <-].
  - apply generateHTML_ok in E as (-> & Hp & Hi & Hor); simpl.
    split_and!; [done | left; by rewrite Hp |].
    intros Hw Hl. destruct Hor; congruence.
  - split_and!; [|right; split; [done | apply last_snoc]|done].
    destruct Hadd as (t1 & Ht1 & F1).
    exists (t1 ++ [ConsoleError "Error generating PDF:"]). simpl.
    rewrite Ht1, app_assoc; split; [done|].
    apply Forall_app; split; [done|]. by repeat constructor.
Qed.

(** X17.  [/pdf_visualiser] answers 400 to an undefined body and
    leaves the world as it is.  To any other body it answers either
    200, handing [res.send] the merge of the two final renders of the
    posted document, both pages closed, or 500 with a text, still under
    the content type [application/pdf], after an error line on the
    console.  The posted document is the page that [generateHTML] leaves
    ([w1]); [ex] is the count of extra pages that the probe finds, [w3]
    the world that the numbering stage leaves; the cover is rendered
    from the document of [page1] with the other sections hidden, the
    body from the document that [getAllSectionsExceptFirst] leaves. *)
Theorem pdf_visualiser_answer env req w resp w' :
  pdf_visualiser env req w = (resp, w') →
  (body req = Undefined → resp = bad_request ∧ w' = w) ∧
  (∀ text, toString (body req) = Ok text →
     (∃ w1 ex w2 w3 c b cover body,
        generateHTML env text w = (Ok Page1, w1) ∧
        page1 w1 = parseHTML env text ∧
        upto_probe env w1 = (Ok ex, w2) ∧
        update_numbers env ex w2 = (Ok tt, w3) ∧
        let dc := map_elements hide_other_sections (page1 w3) in
        let db := (flex_later_sections false
                     (default dc (modify_first (has_id "presentation")
                                    (clear_cover ex) dc))).1 in
        let oc := with_templates
                    (template "header-first-page"
                       "<div>header first page missing</div>" dc)
                    (template "footer-first-page"
                       "<div>Footer first page missing</div>" dc)
                    options0 in
        let ob := with_templates
                    (template "header-container" "<div>header missing</div>" db)
                    (template "footer" "<div>Footer first page missing</div>" db)
                    (with_margin_top "35mm" oc) in
        pdf env dc oc = Some c ∧ pdf env db ob = Some b ∧
        load env c = Some cover ∧ load env b = Some body ∧
        Z.to_nat ex < length cover ∧ body ≠ [] ∧
        resp = {| status := 200; contentType := Some "application/pdf";
                  payload := PdfPayload
                               (save env (take 1 cover ++ drop 1 body)) |} ∧
        Closed Page2 ∈ trace w' ∧ Closed Page1 ∈ trace w') ∨
     (resp = {| status := 500; contentType := Some "application/pdf";
                payload := TextPayload "Error generating PDF" |} ∧
      last (trace w') = Some (ConsoleError "Error generating PDF:"))).
Proof.
  intros H. split.
  { intros Hb. unfold pdf_visualiser in H. rewrite Hb in H. by simplify_eq/=. }
  intros text Ht.
  assert (Hr : respond "application/pdf" PdfPayload
                 (generateHTML env text;; generatePDF env) w = (resp, w')).
  { unfold pdf_visualiser in H. by destruct (body req); simplify_eq/=. }
  clear H Ht. revert Hr. unfold respond, bind.
  destruct (generateHTML env text w) as [[p|e] w1] eqn:E; simpl in *.
  2:{ intros [= <- <-]; right; split; [done | apply last_snoc]. }
  destruct (generatePDF env w1) as [[buf|e] w2] eqn:G; simpl.
  2:{ intros [= <- <-]; right; split; [done | apply last_snoc]. }
  intros [= <- <-]; left.
  apply generateHTML_ok in E as (-> & Hp & _ & _).
  pose proof (generatePDF_ok_trace env w1 _ _ G) as (t1 & t2 & Ht).
  destruct (generatePDF_cases _ _ _ _ G)
    as [(e & ? & _) | (w0 & wp & w3 & c & b & ex & _ & Hprobe & Hnum & Hc & Hb
                       & _ & _ & Hm)]; [done|].
  destruct (proj1 (mergePDFs_ok_iff env c b ex
              (logged w0 [Closed Page2; Closed Page1;
                          Log "Browser closed after generating PDF parts."]) buf))
    as (cover & body & Hlc & Hlb & Hne & Hlen & ->).
  { by rewrite <- Hm. }
  exists w1, ex, wp, w3, c, b, cover, body.
  split_and!; try done.
  - rewrite Ht, !elem_of_app, !elem_of_cons; tauto.
  - rewrite Ht, !elem_of_app, !elem_of_cons; tauto.
Qed.

Lemma launches_app t1 t2 : launches (t1 ++ t2) = launches t1 + launches t2.
Proof. unfold launches. by rewrite filter_app, length_app. Qed.

Lemma launches_quiet t : Forall not_launched t → launches t = 0.
Proof.
  unfold launches. induction 1 as [|e t He _ IH]; [done|].
  rewrite filter_cons. by destruct e.
Qed.

Lemma generateHTML_launches_once env text w :
  ∃ t, trace (generateHTML env text w).2 = trace w ++ t ∧
       launches t ≤ 1 ∧
       (instance w = true → launches t = 0 ∧
                            instance (generateHTML env text w).2 = true).
Proof.
  cbv [generateHTML getInstance bind emit log get_instance set_instance set_page
       ret throw]. simpl.
  destruct (instance w) eqn:Hw; simpl.
  - eexists. split; [by rewrite <- app_assoc|]. vm_compute. auto.
  - destruct (launch env); simpl.
    + eexists. split; [by rewrite <- !app_assoc|]. vm_compute. split; [lia|done].
    + eexists. split; [by rewrite <- !app_assoc|]. vm_compute. split; [lia|done].
Qed.

Lemma pdf_work_launches env text w :
  ∃ t, trace (respond "application/pdf" PdfPayload
                (generateHTML env text;; generatePDF env) w).2 = trace w ++ t ∧
       launches t ≤ 1 ∧
       (instance w = true →
        launches t = 0 ∧
        instance (respond "application/pdf" PdfPayload
                    (generateHTML env text;; generatePDF env) w).2 = true).
Proof.
  unfold respond, bind.
  destruct (generateHTML_launches_once env text w) as (t1 & Ht1 & Hle & Hq).
  destruct (generateHTML env text w) as [[p|e] w1] eqn:E; simpl in *.
  2:{ exists (t1 ++ [ConsoleError "Error generating PDF:"]).
      rewrite Ht1, app_assoc, launches_app. split; [done|].
      change (launches [ConsoleError "Error generating PDF:"]) with 0.
      split; [lia|]. intros Hw. destruct (Hq Hw) as [-> ?]. done. }
  apply generateHTML_ok in E as (_ & _ & Hi1 & _).
  destruct (quiet_generatePDF env w1 Hi1) as (Hi2 & t2 & Ht2 & Hf2).
  apply launches_quiet in Hf2.
  destruct (generatePDF env w1) as [[buf|e] w2]; simpl in *.
  - exists (t1 ++ t2). rewrite Ht2, Ht1, app_assoc, launches_app.
    split; [done|]. split; [lia|]. intros Hw. destruct (Hq Hw) as [-> ?].
    split; [lia|done].
  - exists (t1 ++ t2 ++ [ConsoleError "Error generating PDF:"]).
    rewrite Ht2, Ht1, !app_assoc, !launches_app.
    change (launches [ConsoleError "Error generating PDF:"]) with 0.
    split; [done|]. split; [lia|]. intros Hw. destruct (Hq Hw) as [-> ?].
    split; [lia|done].
Qed.

Lemma html_work_launches env text w :
  ∃ t, trace (respond "text/html" PagePayload
                (let* html := generateHTML env text in get_page html) w).2 =
         trace w ++ t ∧
       launches t ≤ 1 ∧
       (instance w = true →
        launches t = 0 ∧
        instance (respond "text/html" PagePayload
                    (let* html := generateHTML env text in get_page html) w).2 = true).
Proof.
  unfold respond, bind.
  destruct (generateHTML_launches_once env text w) as (t1 & Ht1 & Hle & Hq).
  destruct (generateHTML env text w) as [[p|e] w1] eqn:E; simpl in *.
  2:{ exists (t1 ++ [ConsoleError "Error generating PDF:"]).
      rewrite Ht1, app_assoc, launches_app. split; [done|].
      change (launches [ConsoleError "Error generating PDF:"]) with 0.
      split; [lia|]. intros Hw. destruct (Hq Hw) as [-> ?]. done. }
  by exists t1.
Qed.

(** X18.  Chrome is launched at most once by a request: a request
    that finds a browser running launches none and leaves it
    running. *)
Theorem handlers_launch_at_most_once env req w handler :
  handler = pdf_visualiser ∨ handler = html_visualiser →
  ∃ t, trace (handler env req w).2 = trace w ++ t ∧
       launches t ≤ 1 ∧
       (instance w = true →
        launches t = 0 ∧ instance (handler env req w).2 = true).
Proof.
  assert (Hnil : ∃ t, trace w = trace w ++ t ∧ launches t ≤ 1 ∧
                      (instance w = true → launches t = 0 ∧ instance w = true)).
  { exists []. rewrite app_nil_r. vm_compute. auto. }
  intros [-> | ->].
  - unfold pdf_visualiser.
    destruct (body req) as [| |bytes]; simpl;
      [exact Hnil | apply pdf_work_launches | apply pdf_work_launches].
  - unfold html_visualiser.
    destruct (body req) as [| |bytes]; simpl;
      [exact Hnil | apply html_work_launches | apply html_work_launches].
Qed.

End HandlerFacts.

(** ** The command line *)

Module CliFacts.
Import JsString Dom TitleLocator Effects Assembler Injector Pipeline App Runs RunFacts.
Import AssemblerFacts MergeFacts InjectorFacts StageFacts SplitterFacts GeneratePdfFacts.
Import TraceFacts Runs HandlerFacts Cli.
Open Scope js_scope.
#[local] Arguments generateHTML : simpl never.
#[local] Arguments generatePDF : simpl never.
#[local] Arguments getInstance : simpl never.
#[local] Arguments String.append : simpl nomatch.

Lemma replace_not_included pat rep s :
  includes s pat = false → replace pat rep s = s.
Proof.
  induction s as [|a s IH]; simpl.
  - rewrite orb_false_r. by intros ->.
  - intros [-> H]%orb_false_elim. by rewrite IH.
Qed.

Lemma norender_generateHTML env text :
  run_inv (adds (fun e => not_closed e ∧ ∀ which o, e ≠ Rendered which o))
    (generateHTML env text).
Proof.
  unfold generateHTML, getInstance.
  repeat lazymatch goal with
    | |- run_inv _ (bind _ _) => apply run_inv_bind; [apply _| |intros ?]
    | |- run_inv _ (ret _) => apply run_inv_ret; apply _
    | |- run_inv _ (throw _) => apply run_inv_throw; apply _
    | |- run_inv _ get_instance => apply run_inv_get_instance; apply _
    | |- run_inv (adds _) (emit _) => apply adds_emit; by split
    | |- run_inv (adds _) (log _) => apply adds_emit; by split
    | |- run_inv (adds _) (set_page _ _) => apply adds_set_page
    | |- run_inv (adds _) set_instance => apply adds_set_instance
    | |- run_inv _ (match ?x with _ => _ end) => destruct x
    end.
Qed.

(** X19.  The [html] action writes [rapport.html] of the output
    directory, as the browser parsed it, under the name of the report:
    no PDF is rendered, so no page number is looked up, and the page is
    left open. *)
Theorem createHTMLFile_writes_the_parsed_input env fs argv w w' :
  createHTMLFile env fs argv w = (Ok tt, w') →
  ∃ reportName outputPath content,
    argv !! 3 = Some reportName ∧ argv !! 4 = Some outputPath ∧
    readFileSync fs (path_join fs outputPath "rapport.html") = Some content ∧
    writeFileSync env (path_join fs outputPath reportName) (parseHTML env content) = true ∧
    adds (fun e => not_closed e ∧ ∀ which o, e ≠ Rendered which o) w w'.
Proof.
  unfold createHTMLFile. unfold bind at 1. simpl.
  destruct (argv !! 4) as [outputPath|]; [|done].
  unfold bind at 1.
  change REPORT_HTML with "rapport.html".
  destruct (readFileSync fs (path_join fs outputPath "rapport.html")) as [content|] eqn:R;
    simpl; [|done].
  unfold try_catch, bind at 1.
  set (w0 := {| instance := instance w; page1 := page1 w; page2 := page2 w;
                trace := trace w ++ [Log "Generating intermediate HTML from "] |}).
  assert (Hgen : adds (fun e => not_closed e ∧ ∀ which o, e ≠ Rendered which o)
                   w (generateHTML env content w0).2).
  { etrans; [|apply norender_generateHTML].
    apply (adds_emit _ (Log "Generating intermediate HTML from ")). by split. }
  destruct (generateHTML env content w0) as [[p|e] w1] eqn:G; simpl in *.
  2:{ by destruct (argv !! 3). }
  apply generateHTML_ok in G as (-> & Hp & _ & _).
  destruct (argv !! 3) as [reportName|]; [|done].
  cbv [bind get_page emit log ret throw]. simpl.
  destruct (writeFileSync env (path_join fs outputPath reportName) (page1 w1)) eqn:Hw;
    simpl; [|done].
  intros [= <-]. exists reportName, outputPath, content.
  split_and!; [done | done | done | by rewrite <- Hp |].
  destruct Hgen as (t & Ht & Hf).
  exists (t ++ [Written (path_join fs outputPath reportName);
                Log ("Final HTML with updated TOC saved to: " +:+
                     path_join fs outputPath reportName)]).
  simpl. rewrite Ht, <- !app_assoc. split; [done|].
  apply Forall_app. split; [done|]. by repeat constructor.
Qed.

(** X20.  The [pdf] action reads the file named as the report with
    its first [.pdf] replaced by [.html], and writes the merged PDF
    under the name of the report; with a name that holds no [.pdf] the
    file it read is the file it overwrites. *)
Theorem createPDFFile_reads_and_writes env fs argv w w' :
  createPDFFile env fs argv w = (Ok tt, w') →
  ∃ reportName outputPath content cover body,
    argv !! 3 = Some reportName ∧ argv !! 4 = Some outputPath ∧
    readFileSync fs (path_join fs outputPath (replace ".pdf" ".html" reportName))
      = Some content ∧
    writeBuffer fs (path_join fs outputPath reportName)
      (save env (take 1 cover ++ drop 1 body)) = true ∧
    cover ≠ [] ∧ body ≠ [] ∧
    (includes reportName ".pdf" = false →
     readFileSync fs (path_join fs outputPath reportName) = Some content).
Proof.
  unfold createPDFFile.
  destruct (argv !! 3) as [reportName|]; [|done].
  destruct (argv !! 4) as [outputPath|]; [|done].
  unfold bind at 1. simpl. unfold bind at 1.
  destruct (readFileSync fs _) as [content|] eqn:R; simpl; [|done].
  unfold bind at 1. simpl. unfold bind at 1.
  match goal with |- context [getInstance env ?w0] =>
    destruct (getInstance env w0) as [[[]|e] w1] end; [|done].
  unfold bind at 1. simpl. unfold bind at 1.
  match goal with |- context [generatePDF env ?w0] =>
    destruct (generatePDF env w0) as [[buf|e] w2] eqn:G end; [|done].
  apply generatePDF_ok_merge in G
    as (c & b & cover & body & ex & _ & _ & Hlen & Hne & ->).
  cbv [bind emit log throw]. simpl.
  destruct (writeBuffer fs _ _) eqn:Hw; simpl; [|done].
  intros _. exists reportName, outputPath, content, cover, body.
  split_and!; try done.
  - intros ->. simpl in Hlen. lia.
  - intros Hnot. by rewrite (replace_not_included _ _ _ Hnot) in R.
Qed.

(** X21.  [main] never throws, so the handler of [main().catch] never
    runs.  It returns without a call of [process.exit] when no action is
    given; it exits with code 1 after a failed conversion and in no
    other case: an unknown action exits with code 0, after one line on
    the console. *)
Theorem main_exit_status env fs argv w :
  ∃ st w',
    main env fs argv w = (Ok st, w') ∧
    script env fs argv w = (Ok st, w') ∧
    match st with
    | Returned =>
        length argv ≤ 2 ∧
        w' = logged w
          [Log "Usage: node index.js <pdf|html> <output_name> <output_path> [report_type]"]
    | ExitCode 0 =>
        ∃ arg, argv !! 2 = Some arg ∧
          if String.eqb (toLowerCase arg) "pdf" then
            ∃ w1, createPDFFile env fs argv w = (Ok tt, w1) ∧
                  w' = logged w1 [Log "PDF generated successfully!"]
          else if String.eqb (toLowerCase arg) "html" then
            ∃ w1, createHTMLFile env fs argv w = (Ok tt, w1) ∧
                  w' = logged w1 [Log "HTML generated successfully!"]
          else
            ∃ line, w' = logged w [ConsoleError line]
    | ExitCode 1 =>
        ∃ arg e w1, argv !! 2 = Some arg ∧
          ((toLowerCase arg = "pdf" ∧
            createPDFFile env fs argv w = (Throw e, w1) ∧
            w' = logged w1 [ConsoleError "Error generating PDF:"]) ∨
           (toLowerCase arg = "html" ∧
            createHTMLFile env fs argv w = (Throw e, w1) ∧
            w' = logged w1 [ConsoleError "Error generating HTML:"]))
    | ExitCode _ => False
    end.
Proof.
  match goal with
  | |- ∃ st w', _ ∧ _ ∧ @?rule st w' =>
      cut (∃ st w', main env fs argv w = (Ok st, w') ∧ rule st w')
  end.
  { intros (st & w' & Hm & Hrule). exists st, w'.
    split_and!; [done | | done]. unfold script, try_catch. by rewrite Hm. }
  unfold main. destruct (length argv <=? 2) eqn:Hlen.
  - apply Nat.leb_le in Hlen. by eexists Returned, _.
  - apply Nat.leb_gt in Hlen.
    destruct (argv !! 2) as [arg|] eqn:Harg.
    2:{ apply lookup_ge_None in Harg. lia. }
    destruct (String.eqb (toLowerCase arg) "pdf") eqn:Epdf.
    + unfold try_catch, bind at 1.
      destruct (createPDFFile env fs argv w) as [[[]|e] w1] eqn:C.
      * eexists (ExitCode 0), _. split; [done|]. exists arg. split; [done|].
        rewrite Epdf. by exists w1.
      * eexists (ExitCode 1), _. split; [done|]. exists arg, e, w1.
        split; [done|]. left. by apply String.eqb_eq in Epdf.
    + destruct (String.eqb (toLowerCase arg) "html") eqn:Ehtml.
      * unfold try_catch, bind at 1.
        destruct (createHTMLFile env fs argv w) as [[[]|e] w1] eqn:C.
        -- eexists (ExitCode 0), _. split; [done|]. exists arg. split; [done|].
           rewrite Epdf, Ehtml. by exists w1.
        -- eexists (ExitCode 1), _. split; [done|]. exists arg, e, w1.
           split; [done|]. right. by apply String.eqb_eq in Ehtml.
      * eexists (ExitCode 0), _. split; [done|]. exists arg. split; [done|].
        rewrite Epdf, Ehtml. by eexists.
Qed.

End CliFacts.

(** ** The properties on the examples *)

Module SampleRuns.
Import JsString Dom TitleLocator Effects Assembler Injector Pipeline App Runs RunFacts.
Import TitleLocatorFacts DomFacts AssemblerFacts MergeFacts DomQueries InjectorFacts.
Import StageFacts SplitterFacts GeneratePdfFacts DomQueries StyleFacts.
Import TraceFacts Runs HandlerFacts Cli CliFacts MatchFacts TitleFacts Samples.
Open Scope js_scope.

Lemma updatePageCount_writes_the_first_field_witness :
  ∃ d' w',
    updatePageCount Page1 4 (Demo.world Demo.report_without_toc) = (Ok tt, w') ∧
    (get_page Page1 w').1 = Ok d' ∧
    trace w' = [Log "Mise à jour du total des pages.";
                Log "Fin de la mise à jour du total des pages. 4"].
Proof.
  destruct (updatePageCount_writes_the_first_field Page1 4
              (Demo.world Demo.report_without_toc) Demo.report_without_toc
              (Element {| tag := "span"; id := EmptyString;
                          classes := ["totalPages"]; display := None |} [])
              eq_refl eq_refl) as (d' & w' & H1 & H2 & _ & _ & _ & H3).
  exists d', w'. split_and!; [exact H1 | exact H2 | exact H3].
Defined.

Lemma page_holding_a_title_is_a_key_witness :
  ∃ j, j ∈ indices_on (find_page_number repeated toc 0) 3.
Proof.
  apply (page_holding_a_title_is_a_key repeated toc 0 3 [run "Introduction"] 0
           "Introduction"); [lia | lia | reflexivity | discriminate
                             | reflexivity | reflexivity].
Defined.

Lemma later_duplicate_title_is_never_numbered_witness :
  1 ∉ indices_on (find_page_number repeated ["Introduction"; "Introduction"] 0) 3.
Proof.
  apply (later_duplicate_title_is_never_numbered repeated
           ["Introduction"; "Introduction"] 0 0 1 "Introduction" 3);
    [reflexivity | reflexivity | lia | discriminate].
Defined.

Lemma find_page_number_map_shape_witness :
  find_page_number [[run "Cover"]; [run "Introduction"]] toc 0 = ∅.
Proof.
  apply (proj2 (find_page_number_map_shape [[run "Cover"]; [run "Introduction"]] toc 0)).
  right. simpl. lia.
Defined.

Lemma empty_title_is_numbered_on_every_page_witness :
  1 ∈ indices_on (find_page_number repeated ["Introduction"; EmptyString] 0) 4.
Proof.
  apply (empty_title_is_numbered_on_every_page repeated
           ["Introduction"; EmptyString] 0 4
           [run "As said in the Introduction, ..."] 1);
    [lia | lia | reflexivity | discriminate | reflexivity].
Defined.

Lemma inject_number_appends_page_witness :
  ∃ toc' c' link',
    inject_number 3 0 contents = Ok toc' ∧
    children toc' = <[0 := c']> (children contents) ∧
    querySelector (has_tag "a") c' = Some link' ∧
    textContent link' = "Introduction" +:+ pretty 3.
Proof.
  destruct (inject_number_appends_page 3 0 contents first_entry first_link
              eq_refl eq_refl) as (toc' & c' & link' & H1 & H2 & H3 & _ & H5).
  exists toc', c', link'. split_and!; [exact H1 | exact H2 | exact H3 | exact H5].
Defined.

Lemma updateTableOfContent_reads_every_entry_witness :
  ∃ titles, read_titles (children contents) = Ok titles ∧ length titles = 2.
Proof.
  destruct (proj2 (updateTableOfContent_reads_every_entry repeated 0
                     (Demo.world contents) contents eq_refl))
    as (titles & H1 & H2 & _).
  - intros c [->|[->|[]%elem_of_nil]%elem_of_cons]%elem_of_cons; discriminate.
  - exists titles. split; [exact H1 | exact H2].
Defined.

Lemma pages_are_closed_only_before_the_merge_witness :
  ∃ t1 t2, trace generated.2 =
           trace (Demo.world Demo.report_without_toc) ++ t1 ++
           [Closed Page2; Closed Page1] ++ t2.
Proof.
  apply (pages_are_closed_only_before_the_merge Demo.env
           (Demo.world Demo.report_without_toc) (Ok "cover intro scope ") generated.2).
  vm_compute. reflexivity.
Defined.

Lemma generatePDF_returns_the_merged_renders_witness :
  ∃ cover body,
    cover ≠ [] ∧ body ≠ [] ∧
    "cover intro scope " = save Demo.env (take 1 cover ++ drop 1 body).
Proof.
  destruct (generatePDF_returns_the_merged_renders Demo.env
              (Demo.world Demo.report_without_toc) "cover intro scope " generated.2)
    as (ex & w2 & w3 & c & b & cover & body & _ & _ & _ & _ & _ & _ & Hlen & Hne & Hr).
  - vm_compute. reflexivity.
  - exists cover, body. split_and!; [|exact Hne|exact Hr].
    intros ->. simpl in Hlen. lia.
Defined.

Lemma generatePDF_own_errors_witness :
  instance (Demo.world blank) = false ∧ launch unlaunchable = false.
Proof.
  destruct (generatePDF_own_errors unlaunchable (Demo.world blank)
              "Puppeteer launch failed: " launch_failed)
    as (_ & Hi & Hl & _).
  - vm_compute. reflexivity.
  - split; [exact Hi | exact Hl].
Defined.

Lemma generatePDF_writes_output_html_witness :
  Written "output.html" ∈ trace generated.2.
Proof.
  apply (generatePDF_writes_output_html Demo.env
           (Demo.world Demo.report_without_toc) (Ok "cover intro scope ") generated.2).
  - vm_compute. reflexivity.
  - discriminate.
Defined.

Lemma getFirstSection_hides_other_sections_witness :
  ∃ d' header footer w',
    getFirstSection Page1 (Demo.world Demo.report_without_toc)
      = (Ok (d', header, footer), w') ∧
    querySelectorAll (has_tag "section") d' =
      [ {| tag := "section"; id := "presentation"; classes := []; display := None |};
        {| tag := "section"; id := EmptyString; classes := [];
           display := Some "none" |} ] ∧
    header = Literal "<div>header first page missing</div>".
Proof.
  destruct (getFirstSection_hides_other_sections Page1
              (Demo.world Demo.report_without_toc) Demo.report_without_toc eq_refl)
    as (d' & header & footer & w' & H1 & _ & _ & H2 & _ & _ & H3 & _).
  exists d', header, footer, w'. split_and!; [exact H1 | exact H2 | exact H3].
Defined.

Lemma getAllSectionsExceptFirst_shows_sections_witness :
  ∃ d2 w',
    getAllSectionsExceptFirst Page1 0 (Demo.world Demo.report_without_toc)
      = (Ok d2, w') ∧
    tail (querySelectorAll (has_tag "section") d2) =
      [ {| tag := "section"; id := EmptyString; classes := [];
           display := Some "flex" |} ].
Proof.
  destruct (getAllSectionsExceptFirst_shows_sections Page1 0
              (Demo.world Demo.report_without_toc) Demo.report_without_toc eq_refl)
    as (d2 & w' & H1 & _ & _ & H2 & _).
  exists d2, w'. split; [exact H1 | exact H2].
Defined.

Lemma html_visualiser_answer_witness :
  html_answer.1 = {| status := 200; contentType := Some "text/html";
                     payload := PagePayload Demo.report_without_toc |}.
Proof.
  destruct (html_visualiser_answer Demo.env post (Demo.world blank)
              html_answer.1 html_answer.2) as (_ & H).
  - vm_compute. reflexivity.
  - destruct (H "<html>" eq_refl) as (_ & [(Hr & _) | (Hr & _)] & _).
    + exact Hr.
    + discriminate Hr.
Defined.

Lemma pdf_visualiser_answer_witness :
  ∃ w1 cover body,
    generateHTML Demo.env "<html>" (Demo.world blank) = (Ok Page1, w1) ∧
    page1 w1 = Demo.report_without_toc ∧
    pdf_answer.1 =
      {| status := 200; contentType := Some "application/pdf";
         payload := PdfPayload (save Demo.env (take 1 cover ++ drop 1 body)) |}.
Proof.
  destruct (pdf_visualiser_answer Demo.env post (Demo.world blank)
              pdf_answer.1 pdf_answer.2) as (_ & H).
  - vm_compute. reflexivity.
  - destruct (H "<html>" eq_refl)
      as [(w1 & ex & w2 & w3 & c & b & cover & body & Hg & Hp & _ & _ & _ & _
           & _ & _ & _ & _ & Hr & _) | (Hr & _)].
    + exists w1, cover, body. split_and!; [exact Hg | exact Hp | exact Hr].
    + discriminate Hr.
Defined.

Lemma handlers_launch_at_most_once_witness :
  ∃ t, trace pdf_answer.2 = trace (Demo.world blank) ++ t ∧ launches t ≤ 1.
Proof.
  destruct (handlers_launch_at_most_once Demo.env post (Demo.world blank)
              pdf_visualiser (or_introl eq_refl)) as (t & H1 & H2 & _).
  exists t. split; [|exact H2].
  transitivity (trace (pdf_visualiser Demo.env post (Demo.world blank)).2);
    [vm_compute; reflexivity | exact H1].
Defined.

Lemma createHTMLFile_writes_the_parsed_input_witness :
  ∃ reportName outputPath content,
    html_argv !! 3 = Some reportName ∧ html_argv !! 4 = Some outputPath ∧
    readFileSync files (path_join files outputPath "rapport.html") = Some content.
Proof.
  destruct (createHTMLFile_writes_the_parsed_input Demo.env files html_argv
              (Demo.world blank) html_file.2)
    as (reportName & outputPath & content & H1 & H2 & H3 & _).
  - vm_compute. reflexivity.
  - exists reportName, outputPath, content. split_and!; [exact H1|exact H2|exact H3].
Defined.

Lemma createPDFFile_reads_and_writes_witness :
  ∃ reportName outputPath content,
    pdf_argv !! 3 = Some reportName ∧ pdf_argv !! 4 = Some outputPath ∧
    readFileSync files (path_join files outputPath (replace ".pdf" ".html" reportName))
      = Some content.
Proof.
  destruct (createPDFFile_reads_and_writes Demo.env files pdf_argv
              (Demo.world blank) pdf_file.2)
    as (reportName & outputPath & content & cover & body & H1 & H2 & H3 & _).
  - vm_compute. reflexivity.
  - exists reportName, outputPath, content. split_and!; [exact H1|exact H2|exact H3].
Defined.

End SampleRuns.
